(** * cograph: a circuit graph of components and line edges

    A shallow embedding of [cograph.py]: the value classes
    [PhysicalProperties] and [ApparentEMFState], the component variants
    [Resistor] and [VoltageDC] of the abstract [ComponentNode],
    [LineEdge], and the construction operations [define] and [link] of
    [CircuitGraph].

    Python objects that are shared and mutated (components, edges) live in
    a store and are named by address; a method either returns or raises,
    and what it wrote before raising stays written.

    The source stops at graph construction. The tick driver that the
    specification describes on top of it is modelled from the
    specification, in its own section. *)

From Stdlib Require Import ZArith NArith Floats.
From stdpp Require Import base option list gmap strings.

Set Warnings "-inexact-float".
Local Open Scope string_scope.

(** ** Python values *)

(** A Python number as the source writes it: [1000] is an [int], [0.] a
    [float]. *)
Inductive number :=
  | Int (z : Z)
  | Float (f : float).

(** [@dataclass class PhysicalProperties]: four fields; the source never
    assigns to a field of an instance, so an instance is a value. *)
Record PhysicalProperties := mkPhysicalProperties {
  resistance_ohms : number;
  capacitance_farads : number;
  inductance_teslas : number;
  temperature_delta_celsius : number
}.

(** [@dataclass class ApparentEMFState]. *)
Record ApparentEMFState := mkApparentEMFState {
  potential_volts : float;
  current_probe_amps : float
}.

(** An address in the object store. *)
Abbreviation addr := nat.

(** The values the embedded code passes around: [None], [bool], numbers,
    [str], a [PhysicalProperties] instance, or a reference to an object
    of the store; [VObject cls] is an instance of any other class. *)
Inductive pyval :=
  | VNone
  | VBool (b : bool)
  | VNum (n : number)
  | VStr (s : string)
  | VPhys (p : PhysicalProperties)
  | VRef (a : addr)
  | VObject (cls : string).

(** The type objects an attribute table can record. *)
Inductive pytype := Tfloat | Tint | Tbool | Tstr.

(** [isinstance(value, ty)] for the builtin types; [bool] is a subclass
    of [int]. *)
Definition isinstance (value : pyval) (ty : pytype) : bool :=
  match value, ty with
  | VNum (Float _), Tfloat => true
  | VNum (Int _), Tint => true
  | VBool _, Tint => true
  | VBool _, Tbool => true
  | VStr _, Tstr => true
  | _, _ => false
  end.

(** ** Exceptions and the state-and-exception monad *)

(** The exceptions the embedded code can raise, with their argument.
    [SystemError] is raised only on a reference to no object, which no
    Python run produces. *)
Inductive exn :=
  | KeyError (key : string)
  | TypeError (msg : string)
  | AttributeError (msg : string)
  | IndexError (msg : string)
  | NotImplementedError
  | SystemError (msg : string).

Inductive res (A : Type) : Type :=
  | Ok (a : A)
  | Raise (e : exn).
Arguments Ok {A} a.
Arguments Raise {A} e.

(** A computation over a mutable state [S]: the state comes back on both
    outcomes, as Python does not roll back on an exception. *)
Definition M (S A : Type) : Type := S → res A * S.

#[global] Instance M_ret {S} : MRet (M S) := λ A a s, (Ok a, s).
#[global] Instance M_bind {S} : MBind (M S) := λ A B f m s,
  match m s with
  | (Ok a, s') => f a s'
  | (Raise e, s') => (Raise e, s')
  end.

Definition raise {S A} (e : exn) : M S A := λ s, (Raise e, s).
Definition get {S} : M S S := λ s, (Ok s, s).
Definition put {S} (s : S) : M S () := λ _, (Ok (), s).

(** Run [m] on the component [proj s] of a larger state and write the
    result back with [inj]. *)
Definition zoom {S T A} (proj : S → T) (inj : T → S → S) (m : M T A) : M S A :=
  λ s, let '(r, t) := m (proj s) in (r, inj t s).

(** [d[k]] on a [dict] with [str] keys. *)
Definition getitem {S V} (d : gmap string V) (k : string) : M S V :=
  match d !! k with
  | Some v => mret v
  | None => raise (KeyError k)
  end.

(** [args[i]] on a tuple or list. *)
Definition getindex {S V} (l : list V) (i : nat) : M S V :=
  match l !! i with
  | Some v => mret v
  | None => raise (IndexError "tuple index out of range")
  end.

(** ** uuid *)

Module uuid.
(** A [UUID] by its integer value ([UUID.int]). *)
Definition UUID := N.

(** [uuid4()]: an ideal generator that never repeats; the state counts
    the calls made so far and the n-th call returns n. *)
Definition uuid4 : M nat UUID :=
  n ← get; _ ← put (S n); mret (N.of_nat n).

Definition hex_digit (n : N) : Ascii.ascii :=
  default Ascii.zero (String.get (N.to_nat n) "0123456789abcdef").

(** ['%0kx' % n]: the [k] low hexadecimal digits of [n]. *)
Fixpoint hex (k : nat) (n : N) : string :=
  match k with
  | O => ""
  | S k' => hex k' (n / 16)%N +:+ String (hex_digit (n mod 16)%N) ""
  end.

(** [str(u)]: 32 hexadecimal digits grouped 8-4-4-4-12. *)
Definition str (u : UUID) : string :=
  let h := hex 32 u in
  String.substring 0 8 h +:+ "-" +:+ String.substring 8 4 h +:+ "-" +:+
  String.substring 12 4 h +:+ "-" +:+ String.substring 16 4 h +:+ "-" +:+
  String.substring 20 12 h.
End uuid.
Export uuid(UUID).

(** ** LineEdge *)

Module LineEdge.
Record t := mk {
  uuid : UUID;
  conductor : pyval;
  u_component_id : pyval;
  u_component_pin : pyval;
  v_component_id : pyval;
  v_component_pin : pyval
}.

(** [LineEdge.__init__(self, *args)]: reads [args[0]] to [args[4]],
    then draws the id. *)
Definition __init__ (args : list pyval) : M nat t :=
  conductor ← getindex args 0;
  u_component_id ← getindex args 1;
  u_component_pin ← getindex args 2;
  v_component_id ← getindex args 3;
  v_component_pin ← getindex args 4;
  uuid ← uuid.uuid4;
  mret (mk uuid conductor u_component_id u_component_pin
           v_component_id v_component_pin).
End LineEdge.

(** ** Component state *)

(** A pin's entry [[basis, dict()]]: the basis and the connected edges,
    keyed by [str(edge id)]. Dicts are compared as Python compares them,
    by content. *)
Abbreviation pin_entry := (PhysicalProperties * gmap string PhysicalProperties)%type.

(** The values stored in a component's [_state] dict. *)
Inductive stval :=
  | SNum (n : number)
  | SPins (pins : gmap string pin_entry)
  | SAttrs (attributes : gmap string pyval).

(** [type(v).__name__] for a [_state] value. *)
Definition stval_type_name (v : stval) : string :=
  match v with
  | SNum (Int _) => "int"
  | SNum (Float _) => "float"
  | SPins _ | SAttrs _ => "dict"
  end.

(** [state['pins'][component_line_key][1][str(line_uuid)] = line_properties]. *)
Definition pins_connect (component_line_key : string) (line_uuid : UUID)
    (line_properties : PhysicalProperties) : M (gmap string stval) () :=
  state ← get;
  pins ← getitem state "pins";
  match pins with
  | SPins p =>
      entry ← getitem p component_line_key;
      put (<["pins" := SPins (<[component_line_key :=
              (entry.1, <[uuid.str line_uuid := line_properties]> entry.2)]> p)]> state)
  | v => raise (TypeError ("'" +:+ stval_type_name v +:+ "' object is not subscriptable"))
  end.

(** [state['pins'][component_line_key][1].pop(str(line_id))]. *)
Definition pins_disconnect (component_line_key : string) (line_id : UUID)
    : M (gmap string stval) () :=
  state ← get;
  pins ← getitem state "pins";
  match pins with
  | SPins p =>
      entry ← getitem p component_line_key;
      _ ← getitem (V:=PhysicalProperties) entry.2 (uuid.str line_id);
      put (<["pins" := SPins (<[component_line_key :=
              (entry.1, delete (uuid.str line_id) entry.2)]> p)]> state)
  | v => raise (TypeError ("'" +:+ stval_type_name v +:+ "' object is not subscriptable"))
  end.

(** [type(v).__name__] for a value outside the store. *)
Definition builtin_type_name (v : pyval) : string :=
  match v with
  | VNone => "NoneType"
  | VBool _ => "bool"
  | VNum (Int _) => "int"
  | VNum (Float _) => "float"
  | VStr _ => "str"
  | VPhys _ => "PhysicalProperties"
  | VRef _ => "object"
  | VObject cls => cls
  end.

(** A dataclass with [eq] and without [frozen] has [__hash__ = None]. *)
Definition hashable (v : pyval) : bool :=
  match v with
  | VPhys _ => false
  | _ => true
  end.

(** A set display [{e1, e2, ...}]: the elements are hashed left to
    right, and the first one that cannot be hashed raises. The set is
    kept as the list of its elements. *)
Fixpoint set_display {S} (elems : list pyval) : M S (list pyval) :=
  match elems with
  | [] => mret []
  | e :: rest =>
      if hashable e
      then s ← set_display rest; mret (e :: s)
      else raise (TypeError ("unhashable type: '" +:+ builtin_type_name e +:+ "'"))
  end.

(** ** Resistor *)

Module Resistor.
Record t := mk {
  _basis : PhysicalProperties;
  _state : gmap string stval
}.

(** Run a computation on [self._state]. *)
Definition on_state {A} (m : M (gmap string stval) A) : M t A :=
  zoom _state (λ st self, mk (_basis self) st) m.

Definition __init__ : t :=
  let basis := mkPhysicalProperties (Int 1000) (Float 0) (Float 0) (Float 0) in
  {| _basis := basis;
     _state := {[
       "temp_c" := SNum (Int 25);
       "pins" := SPins {[ "p1" := (basis, ∅); "p2" := (basis, ∅) ]};
       "ticks" := SNum (Int 0)
     ]} |}.

(** A method, not a property; its body is a set display of pin names
    and [PhysicalProperties] instances. *)
Definition input_basis_table : M t (list pyval) :=
  self ← get;
  set_display [VStr "p1"; VPhys (_basis self); VStr "p2"; VPhys (_basis self)].

(** Sets [self._state['temp_c']]; the method returns [self]. *)
Definition on_initialisation (ambient_temp_c : number) : M t () :=
  on_state (state ← get; put (<["temp_c" := SNum ambient_temp_c]> state)).

Definition on_line_connect (component_line_key : string) (line_uuid : UUID)
    (line_properties : PhysicalProperties) : M t () :=
  on_state (pins_connect component_line_key line_uuid line_properties).

Definition on_line_disconnect (component_line_key : string) (line_id : UUID) : M t () :=
  on_state (pins_disconnect component_line_key line_id).

Definition on_tdelta (tick : Z)
    (edge_deltas : gmap string (ApparentEMFState * PhysicalProperties))
    : M t PhysicalProperties :=
  raise NotImplementedError.

Definition on_set_attribute (key : string) (value : pyval) : M t pyval :=
  mret (VBool false).

Definition attribute_lookup (self : t) : gmap string pytype := ∅.
End Resistor.

(** ** VoltageDC *)

Module VoltageDC.
(** [_attrib_type_map] is the class attribute, [None]: [__init__] and
    the methods never assign it on the instance. *)
Record t := mk {
  _basis : PhysicalProperties;
  _attrib_type_map : option (gmap string pytype);
  _attributes : gmap string pytype;
  _state : gmap string stval
}.

Definition on_state {A} (m : M (gmap string stval) A) : M t A :=
  zoom _state
    (λ st self, mk (_basis self) (_attrib_type_map self) (_attributes self) st) m.

Definition __init__ : t :=
  let basis := mkPhysicalProperties (Float 0) (Float 0) (Float 0) (Float 0) in
  let attributes : gmap string pytype := {[ "voltage_selector_state" := Tfloat ]} in
  {| _basis := basis;
     _attrib_type_map := None;
     _attributes := attributes;
     _state := {[
       "temp_c" := SNum (Int 25);
       "pins" := SPins {[ "pos" := (basis, ∅); "neg" := (basis, ∅) ]};
       "ticks" := SNum (Int 0);
       "attributes" := SAttrs ((λ _, VNone) <$> attributes)
     ]} |}.

Definition on_initialisation (ambient_temp_c : number) : M t () :=
  on_state (state ← get; put (<["temp_c" := SNum ambient_temp_c]> state)).

Definition on_line_connect (component_line_key : string) (line_uuid : UUID)
    (line_properties : PhysicalProperties) : M t () :=
  on_state (pins_connect component_line_key line_uuid line_properties).

Definition on_line_disconnect (component_line_key : string) (line_id : UUID) : M t () :=
  on_state (pins_disconnect component_line_key line_id).

Definition on_tdelta (tick : Z)
    (edge_deltas : gmap string (ApparentEMFState * PhysicalProperties))
    : M t (gmap string (ApparentEMFState * PhysicalProperties)) :=
  raise NotImplementedError.

(** The two tests read [self._attrib_type_map]; the store goes to
    [self._state['attribute']]; no [return] follows it, so the call
    then returns [None]. A [_state] built by [__init__] has the key
    ['attributes'] and no key ['attribute'], so that lookup raises; the
    cases after it are for a value that no method ever stores there. *)
Definition on_set_attribute (key : string) (value : pyval) : M t pyval :=
  self ← get;
  match _attrib_type_map self with
  | None => raise (TypeError "argument of type 'NoneType' is not iterable")
  | Some attrib_type_map =>
      match attrib_type_map !! key with
      | None => mret (VBool false)
      | Some ty =>
          if negb (isinstance value ty) then mret (VBool false)
          else
            _ ← on_state (
              state ← get;
              attribute ← getitem state "attribute";
              match attribute with
              | SAttrs a => put (<["attribute" := SAttrs (<[key := value]> a)]> state)
              | v => raise (TypeError ("'" +:+ stval_type_name v +:+
                       "' object does not support item assignment"))
              end);
            mret VNone
      end
  end.

Definition attribute_lookup (self : t) : option (gmap string pytype) :=
  _attrib_type_map self.

Definition input_basis_table (self : t) : gmap string PhysicalProperties :=
  {[ "pos" := _basis self; "neg:" := _basis self ]}.
End VoltageDC.

(** ** The object store *)

Inductive pyobj :=
  | OResistor (r : Resistor.t)
  | OVoltageDC (v : VoltageDC.t)
  | OLineEdge (e : LineEdge.t).

(** The store: the objects created so far, an object's address being
    its index, and the number of [uuid4()] calls made so far. *)
Record World := mkWorld {
  heap : list pyobj;
  uuid4_calls : nat
}.

Definition empty_world : World := mkWorld [] 0.

(** [type(v).__name__]. *)
Definition type_name (w : World) (v : pyval) : string :=
  match v with
  | VRef a =>
      match heap w !! a with
      | Some (OResistor _) => "Resistor"
      | Some (OVoltageDC _) => "VoltageDC"
      | Some (OLineEdge _) => "LineEdge"
      | None => "object"
      end
  | _ => builtin_type_name v
  end.

(** [isinstance(v, ComponentNode)]. *)
Definition is_ComponentNode (w : World) (v : pyval) : bool :=
  match v with
  | VRef a =>
      match heap w !! a with
      | Some (OResistor _) | Some (OVoltageDC _) => true
      | _ => false
      end
  | _ => false
  end.

(** [isinstance(v, LineEdge)]. *)
Definition is_LineEdge (w : World) (v : pyval) : bool :=
  match v with
  | VRef a =>
      match heap w !! a with
      | Some (OLineEdge _) => true
      | _ => false
      end
  | _ => false
  end.

(** Creating an object: it gets the next address. *)
Definition new (o : pyobj) : M World addr :=
  w ← get;
  _ ← put (mkWorld (heap w ++ [o]) (uuid4_calls w));
  mret (length (heap w)).

(** [Resistor()] and [VoltageDC()]. *)
Definition new_Resistor : M World addr := new (OResistor Resistor.__init__).
Definition new_VoltageDC : M World addr := new (OVoltageDC VoltageDC.__init__).

(** Constructing a [LineEdge] from the argument tuple. *)
Definition new_LineEdge (args : list pyval) : M World addr :=
  e ← zoom uuid4_calls (λ n w, mkWorld (heap w) n) (LineEdge.__init__ args);
  new (OLineEdge e).

(** Run a method body on the object at address [a], [body] giving the
    method of each class ([None]: the class has no such attribute). *)
Definition on_object {A} (a : addr) (attribute : string)
    (body : pyobj → option (M pyobj A)) : M World A :=
  w ← get;
  match heap w !! a with
  | None => raise (SystemError "reference to no object")
  | Some o =>
      match body o with
      | None => raise (AttributeError ("'" +:+ type_name w (VRef a) +:+
                  "' object has no attribute '" +:+ attribute +:+ "'"))
      | Some m => zoom (λ _, o) (λ o' w, mkWorld (<[a := o']> (heap w)) (uuid4_calls w)) m
      end
  end.

(** A method of [Resistor] or [VoltageDC] as a computation on the stored
    object. *)
Definition as_Resistor {A} (r : Resistor.t) (m : M Resistor.t A) : M pyobj A :=
  zoom (λ _, r) (λ r' _, OResistor r') m.
Definition as_VoltageDC {A} (v : VoltageDC.t) (m : M VoltageDC.t A) : M pyobj A :=
  zoom (λ _, v) (λ v' _, OVoltageDC v') m.

(** [target.on_line_connect(pin, line_uuid, line_properties)], by the
    class of [target]. *)
Definition on_line_connect (target : pyval) (component_line_key : string)
    (line_uuid : UUID) (line_properties : PhysicalProperties) : M World () :=
  match target with
  | VRef a =>
      on_object a "on_line_connect" (λ o,
        match o with
        | OResistor r => Some (as_Resistor r
            (Resistor.on_line_connect component_line_key line_uuid line_properties))
        | OVoltageDC v => Some (as_VoltageDC v
            (VoltageDC.on_line_connect component_line_key line_uuid line_properties))
        | OLineEdge _ => None
        end)
  | v => raise (AttributeError ("'" +:+ builtin_type_name v +:+
           "' object has no attribute 'on_line_connect'"))
  end.

(** [target.on_line_disconnect(pin, line_id)]. *)
Definition on_line_disconnect (target : pyval) (component_line_key : string)
    (line_id : UUID) : M World () :=
  match target with
  | VRef a =>
      on_object a "on_line_disconnect" (λ o,
        match o with
        | OResistor r => Some (as_Resistor r
            (Resistor.on_line_disconnect component_line_key line_id))
        | OVoltageDC v => Some (as_VoltageDC v
            (VoltageDC.on_line_disconnect component_line_key line_id))
        | OLineEdge _ => None
        end)
  | v => raise (AttributeError ("'" +:+ builtin_type_name v +:+
           "' object has no attribute 'on_line_disconnect'"))
  end.

(** [target.on_set_attribute(key, value)]. *)
Definition on_set_attribute (target : pyval) (key : string) (value : pyval)
    : M World pyval :=
  match target with
  | VRef a =>
      on_object a "on_set_attribute" (λ o,
        match o with
        | OResistor r => Some (as_Resistor r (Resistor.on_set_attribute key value))
        | OVoltageDC v => Some (as_VoltageDC v (VoltageDC.on_set_attribute key value))
        | OLineEdge _ => None
        end)
  | v => raise (AttributeError ("'" +:+ builtin_type_name v +:+
           "' object has no attribute 'on_set_attribute'"))
  end.

(** [edge.uuid]. *)
Definition get_uuid (edge : addr) : M World UUID :=
  w ← get;
  match heap w !! edge with
  | Some (OLineEdge e) => mret (LineEdge.uuid e)
  | Some _ => raise (AttributeError ("'" +:+ type_name w (VRef edge) +:+
                "' object has no attribute 'uuid'"))
  | None => raise (SystemError "reference to no object")
  end.

(** ** CircuitGraph *)

Module CircuitGraph.
Record t := mk {
  _labels : gmap string pyval;
  _l_edges : list pyval;
  _c_nodes : list pyval
}.

(** A method of the graph runs on the graph instance and the store. *)
Abbreviation state := (t * World)%type.

Definition self_ : M state t := s ← get; mret s.1.
Definition world_ : M state World := s ← get; mret s.2.
Definition set_self (g : t) : M state () := s ← get; put (g, s.2).
Definition in_world {A} (m : M World A) : M state A :=
  zoom snd (λ w s, (s.1, w)) m.

Definition __init__ : t :=
  {| _l_edges := []; _c_nodes := []; _labels := ∅ |}.

(** [l[-1]]. *)
Definition last_item (l : list pyval) : M state pyval :=
  match last l with
  | Some v => mret v
  | None => raise (IndexError "list index out of range")
  end.

Definition define (label : string) (item : pyval) : M state () :=
  self ← self_;
  w ← world_;
  if bool_decide (is_Some (_labels self !! label)) then
    raise (KeyError "CircuitGraph.define(): Cannot define component")
  else if is_ComponentNode w item then
    _ ← set_self (mk (_labels self) (_l_edges self) (_c_nodes self ++ [item]));
    self ← self_;
    v ← last_item (_c_nodes self);
    set_self (mk (<[label := v]> (_labels self)) (_l_edges self) (_c_nodes self))
  else if is_LineEdge w item then
    _ ← set_self (mk (_labels self) (_l_edges self ++ [item]) (_c_nodes self));
    self ← self_;
    v ← last_item (_l_edges self);
    set_self (mk (<[label := v]> (_labels self)) (_l_edges self) (_c_nodes self))
  else
    raise (TypeError (
      "CircuitGraph.define(): Attempt to add unrecognised item type provided: " +:+
      type_name w item +:+ "  with label " +:+ label +:+ ".")).

(** The default of [line_properties]. *)
Definition default_line_properties : PhysicalProperties :=
  mkPhysicalProperties (Float 0.1) (Float 0) (Float 0) (Float 0).

Definition link (label : string)
    (component_u_label_pin component_v_label_pin : string * string)
    (line_properties : PhysicalProperties) : M state UUID :=
  let '(u_id, u_pin) := component_u_label_pin in
  let '(v_id, v_pin) := component_v_label_pin in
  edge ← in_world (new_LineEdge
    [VPhys line_properties; VStr u_id; VStr u_pin; VStr v_id; VStr v_pin]);
  self ← self_;
  u ← getitem (_labels self) u_id;
  edge_uuid ← in_world (get_uuid edge);
  _ ← in_world (on_line_connect u u_pin edge_uuid line_properties);
  self ← self_;
  v ← getitem (_labels self) v_id;
  edge_uuid ← in_world (get_uuid edge);
  _ ← in_world (on_line_connect v v_pin edge_uuid line_properties);
  _ ← define label (VRef edge);
  in_world (get_uuid edge).
End CircuitGraph.

(** ** Observations on the store *)

(** The pin table [_state['pins']] of a component. *)
Definition state_pins (state : gmap string stval) : option (gmap string pin_entry) :=
  match state !! "pins" with
  | Some (SPins p) => Some p
  | _ => None
  end.

Definition component_state (o : pyobj) : option (gmap string stval) :=
  match o with
  | OResistor r => Some (Resistor._state r)
  | OVoltageDC v => Some (VoltageDC._state v)
  | OLineEdge _ => None
  end.

Definition component_pins (o : pyobj) : option (gmap string pin_entry) :=
  component_state o ≫= state_pins.

(** The edges registered on [pin] of the component at [a]. *)
Definition connections (w : World) (a : addr) (pin : string)
    : option (gmap string PhysicalProperties) :=
  o ← heap w !! a; pins ← component_pins o; entry ← pins !! pin; Some entry.2.

(** [pin] is a key of the pin table of the component at [a]. *)
Definition has_pin (w : World) (a : addr) (pin : string) : bool :=
  bool_decide (is_Some (connections w a pin)).

(** [label] names a component of the graph. *)
Definition names_component (g : CircuitGraph.t) (w : World) (label : string) : bool :=
  match CircuitGraph._labels g !! label with
  | Some v => is_ComponentNode w v
  | None => false
  end.

(** The ids of the edges in the store are among those drawn so far. *)
Definition ids_drawn (w : World) : Prop :=
  ∀ a e, heap w !! a = Some (OLineEdge e) →
    (LineEdge.uuid e < N.of_nat (uuid4_calls w))%N.

(** A run of calls, each made whatever the previous ones did: the
    outcomes in order, and the final state. *)
Fixpoint run_calls {S A} (calls : list (M S A)) (s : S) : list (res A) * S :=
  match calls with
  | [] => ([], s)
  | c :: rest =>
      let '(r, s') := c s in
      let '(rs, s'') := run_calls rest s' in
      (r :: rs, s'')
  end.

Definition is_Ok {A} (r : res A) : bool :=
  match r with Ok _ => true | Raise _ => false end.

(** ** The tick driver *)

Section TickDriver.
(** The transfer function [on_tdelta] of a component (its body in the
    source only raises [NotImplementedError]), the superposition rule
    for the edges sharing a pin, the agreement test on the two
    assertions of an edge, and the iteration cap. *)
Variable transfer : pyobj → nat →
  gmap string (ApparentEMFState * PhysicalProperties) → gmap string ApparentEMFState.
Variable superpose :
  list (ApparentEMFState * PhysicalProperties) → ApparentEMFState * PhysicalProperties.
Variable agree : LineEdge.t → ApparentEMFState → ApparentEMFState → bool.
Variable iteration_cap : nat.

(** Modelled from the spec: the graph with its global tick counter and
    its table of last-committed edge states, neither of which the
    source declares. *)
Record Engine := mkEngine {
  graph : CircuitGraph.t;
  store : World;
  tick_counter : nat;
  edge_state : gmap string ApparentEMFState
}.

(** Modelled from the spec: the result of [advance_tick], the new
    committed edge states or a convergence failure on an edge. *)
Inductive TickResult :=
  | Committed (states : gmap string ApparentEMFState)
  | ConvergenceFailure (edge : UUID).

(** Modelled from the spec: edge states start at zero potential and
    zero current. *)
Definition zero_state : ApparentEMFState := mkApparentEMFState 0 0.

(** Modelled from the spec: step 1, gather; the incoming view of a
    component, each pin's edges with their last-committed states
    combined into one representative. *)
Definition gather (view : gmap string ApparentEMFState) (o : pyobj)
    : gmap string (ApparentEMFState * PhysicalProperties) :=
  match component_pins o with
  | Some pins =>
      (λ entry : pin_entry,
         superpose ((λ kp : string * PhysicalProperties,
                       (default zero_state (view !! kp.1), kp.2))
                    <$> map_to_list entry.2)) <$> pins
  | None => ∅
  end.

(** Modelled from the spec: step 2, compute; what the component named
    [label] asserts on [pin] from the view [view]. *)
Definition assertion (eng : Engine) (view : gmap string ApparentEMFState)
    (label pin : pyval) : ApparentEMFState :=
  default zero_state (
    match label, pin with
    | VStr l, VStr p =>
        v ← CircuitGraph._labels (graph eng) !! l;
        match v with
        | VRef a =>
            o ← heap (store eng) !! a;
            transfer o (tick_counter eng) (gather view o) !! p
        | _ => None
        end
    | _, _ => None
    end).

(** Modelled from the spec: the average of two assertions. *)
Definition average (x y : ApparentEMFState) : ApparentEMFState :=
  mkApparentEMFState
    ((potential_volts x + potential_volts y) / 2)%float
    ((current_probe_amps x + current_probe_amps y) / 2)%float.

(** Modelled from the spec: step 3, reconcile one edge; commit when
    the two assertions agree, otherwise average them, recompute the
    two endpoints on the updated view and repeat, at most [fuel]
    times. [None] is the exhausted cap. *)
Fixpoint relax (fuel : nat) (eng : Engine) (e : LineEdge.t)
    (view : gmap string ApparentEMFState) : option ApparentEMFState :=
  let a_u := assertion eng view (LineEdge.u_component_id e) (LineEdge.u_component_pin e) in
  let a_v := assertion eng view (LineEdge.v_component_id e) (LineEdge.v_component_pin e) in
  if agree e a_u a_v then Some (average a_u a_v)
  else
    match fuel with
    | O => None
    | S fuel' => relax fuel' eng e (<[uuid.str (LineEdge.uuid e) := average a_u a_v]> view)
    end.

(** Modelled from the spec: the edges of the graph, in definition
    order. *)
Definition edges (eng : Engine) : list LineEdge.t :=
  omap (λ v, match v with
             | VRef a =>
                 match heap (store eng) !! a with
                 | Some (OLineEdge e) => Some e
                 | _ => None
                 end
             | _ => None
             end) (CircuitGraph._l_edges (graph eng)).

(** Modelled from the spec: reconcile every edge against the states
    committed by the previous tick; the first edge that does not
    converge fails the whole tick. *)
Fixpoint reconcile (eng : Engine) (es : list LineEdge.t)
    (new : gmap string ApparentEMFState) : UUID + gmap string ApparentEMFState :=
  match es with
  | [] => inr new
  | e :: rest =>
      match relax iteration_cap eng e (edge_state eng) with
      | None => inl (LineEdge.uuid e)
      | Some st => reconcile eng rest (<[uuid.str (LineEdge.uuid e) := st]> new)
      end
  end.

(** Modelled from the spec: [advance_tick]; step 4 commits all
    reconciled edge states and increments the tick counter by one, and
    a convergence failure is reported with nothing committed. *)
Definition advance_tick (eng : Engine) : TickResult * Engine :=
  match reconcile eng (edges eng) (edge_state eng) with
  | inl edge => (ConvergenceFailure edge, eng)
  | inr new =>
      (Committed new,
       mkEngine (graph eng) (store eng) (S (tick_counter eng)) new)
  end.

(** Modelled from the spec: [n] calls of [advance_tick] in a row; the
    results in order and the final engine. *)
Fixpoint advance_ticks (n : nat) (eng : Engine) : list TickResult * Engine :=
  match n with
  | O => ([], eng)
  | S n' =>
      let '(r, eng') := advance_tick eng in
      let '(rs, eng'') := advance_ticks n' eng' in
      (r :: rs, eng'')
  end.

Definition is_Committed (r : TickResult) : bool :=
  match r with Committed _ => true | ConvergenceFailure _ => false end.
End TickDriver.

(** ** Example circuits *)

(** [g = CircuitGraph()]. *)
Definition s_new : CircuitGraph.state := (CircuitGraph.__init__, empty_world).

(** [g.define('r1', Resistor()); g.define('v1', VoltageDC())]. *)
Definition build_rv : M CircuitGraph.state () :=
  r ← CircuitGraph.in_world new_Resistor;
  _ ← CircuitGraph.define "r1" (VRef r);
  v ← CircuitGraph.in_world new_VoltageDC;
  CircuitGraph.define "v1" (VRef v).

Definition s_rv : CircuitGraph.state := snd (build_rv s_new).

(** [g.link('e1', ('v1', 'pos'), ('r1', 'p1'))] on top of [s_rv]. *)
Definition s_rve : CircuitGraph.state :=
  snd (CircuitGraph.link "e1" ("v1", "pos") ("r1", "p1")
         CircuitGraph.default_line_properties s_rv).

(** ** Notions used in the statements *)

(** Unfold the monad's operations in the goal. *)
Ltac monad_unfold :=
  unfold mbind, M_bind, mret, M_ret, raise, get, put, zoom in *.

(** The two exceptions of [define]. *)
Definition duplicate_label : exn :=
  KeyError "CircuitGraph.define(): Cannot define component".

Definition unrecognised_item (w : World) (label : string) (item : pyval) : exn :=
  TypeError (
    "CircuitGraph.define(): Attempt to add unrecognised item type provided: " +:+
    type_name w item +:+ "  with label " +:+ label +:+ ".").

(** The graph after a successful [define] of a component or of an edge. *)
Definition defined_node (g : CircuitGraph.t) (label : string) (item : pyval) : CircuitGraph.t :=
  CircuitGraph.mk (<[label := item]> (CircuitGraph._labels g))
    (CircuitGraph._l_edges g) (CircuitGraph._c_nodes g ++ [item]).

Definition defined_edge (g : CircuitGraph.t) (label : string) (item : pyval) : CircuitGraph.t :=
  CircuitGraph.mk (<[label := item]> (CircuitGraph._labels g))
    (CircuitGraph._l_edges g ++ [item]) (CircuitGraph._c_nodes g).

(** A [define] call of a run of calls. *)
Definition define_call (c : string * pyval) : M CircuitGraph.state () :=
  CircuitGraph.define c.1 c.2.

(** The component [o] with [st] as its [_state]. *)
Definition with_state (o : pyobj) (st : gmap string stval) : pyobj :=
  match o with
  | OResistor r => OResistor (Resistor.mk (Resistor._basis r) st)
  | OVoltageDC v =>
      OVoltageDC (VoltageDC.mk (VoltageDC._basis v) (VoltageDC._attrib_type_map v)
                    (VoltageDC._attributes v) st)
  | OLineEdge e => OLineEdge e
  end.

(** The store with the object at [a] replaced. *)
Definition store_at (w : World) (a : addr) (o : pyobj) : World :=
  mkWorld (<[a := o]> (heap w)) (uuid4_calls w).

(** The pin table with the edge [key] registered on [pin], and with it
    removed. *)
Definition pins_with (p : gmap string pin_entry) (pin key : string)
    (props : PhysicalProperties) (entry : pin_entry) : gmap string stval → gmap string stval :=
  <["pins" := SPins (<[pin := (entry.1, <[key := props]> entry.2)]> p)]>.

Definition pins_without (p : gmap string pin_entry) (pin key : string)
    (entry : pin_entry) : gmap string stval → gmap string stval :=
  <["pins" := SPins (<[pin := (entry.1, delete key entry.2)]> p)]>.

(** The store up to the [_state] of its components: the class of every
    object, a component's other fields, and every edge in full. *)
Definition skeleton (w : World) : list pyobj := (λ o, with_state o ∅) <$> heap w.

(** The edge [link] constructs in the store [w], and the store with it. *)
Definition link_edge (w : World) (line_properties : PhysicalProperties)
    (u_id u_pin v_id v_pin : string) : LineEdge.t :=
  LineEdge.mk (N.of_nat (uuid4_calls w)) (VPhys line_properties)
    (VStr u_id) (VStr u_pin) (VStr v_id) (VStr v_pin).

Definition with_edge (w : World) (e : LineEdge.t) : World :=
  mkWorld (heap w ++ [OLineEdge e]) (S (uuid4_calls w)).

(** What a call of [on_line_connect] on a LineEdge raises. *)
Definition no_on_line_connect : exn :=
  AttributeError "'LineEdge' object has no attribute 'on_line_connect'".

(** [pin] is a pin of the component that [label] names. *)
Definition label_has_pin (g : CircuitGraph.t) (w : World) (label pin : string) : bool :=
  match CircuitGraph._labels g !! label with
  | Some (VRef a) => has_pin w a pin
  | _ => false
  end.

(** [r] is a call's result [True]. *)
Definition returns_True (r : res pyval) : bool :=
  match r with
  | Ok (VBool true) => true
  | _ => false
  end.

(** The number of committed ticks among the results of a run. *)
Definition committed_ticks (rs : list TickResult) : nat :=
  sum_list ((λ r, if is_Committed r then 1 else 0) <$> rs).

(** An engine on the example circuit, at tick 0 with no state committed. *)
Definition eng_rve : Engine := mkEngine s_rve.1 s_rve.2 0 ∅.

(** ** More method calls and runs of construction calls *)

(** [target.on_initialisation(ambient_temp_c)], by the class of
    [target]. *)
Definition on_initialisation (target : pyval) (ambient_temp_c : number) : M World () :=
  match target with
  | VRef a =>
      on_object a "on_initialisation" (λ o,
        match o with
        | OResistor r => Some (as_Resistor r (Resistor.on_initialisation ambient_temp_c))
        | OVoltageDC v => Some (as_VoltageDC v (VoltageDC.on_initialisation ambient_temp_c))
        | OLineEdge _ => None
        end)
  | v => raise (AttributeError ("'" +:+ builtin_type_name v +:+
           "' object has no attribute 'on_initialisation'"))
  end.

(** The properties registered under the edge [id] on [pin] of the
    component at [a]. *)
Definition registered (w : World) (a : addr) (pin : string) (id : UUID)
    : option PhysicalProperties :=
  connections w a pin ≫= (.!! uuid.str id).

(** [self._state['temp_c']] of the component at [a]. *)
Definition temp_c (w : World) (a : addr) : option stval :=
  o ← heap w !! a; st ← component_state o; st !! "temp_c".

(** A construction call on a graph: [define] or [link]. *)
Inductive construction :=
  | Define (label : string) (item : pyval)
  | Link (label : string) (component_u_label_pin component_v_label_pin : string * string)
      (line_properties : PhysicalProperties).

Definition construct (c : construction) : M CircuitGraph.state () :=
  match c with
  | Define label item => CircuitGraph.define label item
  | Link label u v line_properties =>
      _ ← CircuitGraph.link label u v line_properties; mret ()
  end.

(** The graph instance is consistent with the store: the component list
    holds components, the edge list holds edges, every labelled item is
    in one of the two lists, and there are as many labels as items. *)
Definition graph_ok (s : CircuitGraph.state) : Prop :=
  Forall (λ v, is_ComponentNode s.2 v = true) (CircuitGraph._c_nodes s.1) ∧
  Forall (λ v, is_LineEdge s.2 v = true) (CircuitGraph._l_edges s.1) ∧
  (∀ l v, CircuitGraph._labels s.1 !! l = Some v →
     v ∈ CircuitGraph._c_nodes s.1 ∨ v ∈ CircuitGraph._l_edges s.1) ∧
  size (CircuitGraph._labels s.1) =
    length (CircuitGraph._c_nodes s.1) + length (CircuitGraph._l_edges s.1).

(** Every object of [w] is still in [w'], with its class. *)
Definition keeps_classes (w w' : World) : Prop :=
  ∀ v, (is_ComponentNode w v = true → is_ComponentNode w' v = true) ∧
       (is_LineEdge w v = true → is_LineEdge w' v = true).

(** * Properties *)

(** ** The monad *)

Lemma bind_Ok {S A B} (m : M S A) (f : A → M S B) s a s' :
  m s = (Ok a, s') → (m ≫= f) s = f a s'.
Proof. unfold mbind, M_bind. by intros ->. Qed.

Lemma bind_Raise {S A B} (m : M S A) (f : A → M S B) s e s' :
  m s = (Raise e, s') → (m ≫= f) s = (Raise e, s').
Proof. unfold mbind, M_bind. by intros ->. Qed.

Lemma getitem_Some {S V} (d : gmap string V) k v (s : S) :
  d !! k = Some v → getitem d k s = (Ok v, s).
Proof. unfold getitem. by intros ->. Qed.

Lemma getitem_None {S V} (d : gmap string V) k (s : S) :
  d !! k = None → getitem d k s = (Raise (KeyError k), s).
Proof. unfold getitem. by intros ->. Qed.

Lemma run_calls_cons {S A} (c : M S A) rest s :
  run_calls (c :: rest) s =
    ((c s).1 :: (run_calls rest (c s).2).1, (run_calls rest (c s).2).2).
Proof. simpl. destruct (c s) as [r s1]. simpl. by destruct (run_calls rest s1). Qed.

(** ** define *)

(** [define] in one equation: the four outcomes. *)
Lemma define_eq label item g w :
  CircuitGraph.define label item (g, w) =
    if bool_decide (is_Some (CircuitGraph._labels g !! label)) then
      (Raise duplicate_label, (g, w))
    else if is_ComponentNode w item then (Ok (), (defined_node g label item, w))
    else if is_LineEdge w item then (Ok (), (defined_edge g label item, w))
    else (Raise (unrecognised_item w label item), (g, w)).
Proof.
  unfold CircuitGraph.define, CircuitGraph.self_, CircuitGraph.world_,
    CircuitGraph.set_self, CircuitGraph.last_item.
  monad_unfold. simpl.
  case_bool_decide; [done|].
  destruct (is_ComponentNode w item); simpl.
  { by rewrite last_snoc. }
  destruct (is_LineEdge w item); simpl; [|done].
  by rewrite last_snoc.
Qed.

Lemma define_duplicate label item g w :
  is_Some (CircuitGraph._labels g !! label) →
  CircuitGraph.define label item (g, w) = (Raise duplicate_label, (g, w)).
Proof. intros H. rewrite define_eq. by rewrite bool_decide_eq_true_2. Qed.

(** A label stays in the table through a [define], whatever its outcome. *)
Lemma define_keeps_label label item s l :
  is_Some (CircuitGraph._labels s.1 !! l) →
  is_Some (CircuitGraph._labels (CircuitGraph.define label item s).2.1 !! l).
Proof.
  destruct s as [g w]. rewrite define_eq. simpl. intros Hl.
  repeat case_match; simpl; try done;
    (destruct (decide (label = l)) as [->|?];
      [rewrite lookup_insert_eq; eauto | by rewrite lookup_insert_ne]).
Qed.

(** After a successful [define] the label is in the table. *)
Lemma define_Ok_label label item s s' :
  CircuitGraph.define label item s = (Ok (), s') →
  is_Some (CircuitGraph._labels s'.1 !! label).
Proof.
  destruct s as [g w]. rewrite define_eq.
  repeat case_match; intros [= <-]; simpl; rewrite lookup_insert_eq; eauto.
Qed.

(** Once a label is in the table, every later [define] of it fails as a
    duplicate. *)
Lemma run_defines_taken (calls : list (string * pyval)) s k label item :
  is_Some (CircuitGraph._labels s.1 !! label) →
  calls !! k = Some (label, item) →
  (run_calls (define_call <$> calls) s).1 !! k = Some (Raise duplicate_label).
Proof.
  revert s k. induction calls as [|c calls IH]; intros s k Hl Hk; [done|].
  rewrite fmap_cons, run_calls_cons. cbn [fst].
  destruct k as [|k]; cbn [lookup list_lookup] in *.
  - injection Hk as ->. unfold define_call at 1. destruct s as [g w].
    by rewrite define_duplicate.
  - apply IH; [|done]. by apply define_keeps_label.
Qed.

(** ** Connecting and disconnecting *)

Lemma with_state_id o st : component_state o = Some st → with_state o st = o.
Proof. destruct o as [[]|[]|]; simpl; congruence. Qed.

Lemma component_state_with_state o st st' :
  component_state o = Some st → component_state (with_state o st') = Some st'.
Proof. by destruct o. Qed.

Lemma with_state_with_state o st st' :
  with_state (with_state o st) st' = with_state o st'.
Proof. by destruct o. Qed.

Lemma store_at_id w a o : heap w !! a = Some o → store_at w a o = w.
Proof. intros H. destruct w. unfold store_at. simpl in *. by rewrite list_insert_id. Qed.

Lemma store_at_lookup w a o :
  a < length (heap w) → heap (store_at w a o) !! a = Some o.
Proof. intros H. simpl. by apply list_lookup_insert_eq. Qed.

Lemma store_at_store_at w a o o' :
  store_at (store_at w a o) a o' = store_at w a o'.
Proof. unfold store_at. simpl. by rewrite list_insert_insert_eq. Qed.

Lemma state_pins_Some st p : state_pins st = Some p → st !! "pins" = Some (SPins p).
Proof. unfold state_pins. repeat case_match; congruence. Qed.

Lemma state_pins_insert st p : state_pins (<["pins" := SPins p]> st) = Some p.
Proof. unfold state_pins. by rewrite lookup_insert_eq. Qed.

(** [pins_connect] on a known pin registers the edge. *)
Lemma pins_connect_known pin id props st p entry :
  state_pins st = Some p → p !! pin = Some entry →
  pins_connect pin id props st =
    (Ok (), pins_with p pin (uuid.str id) props entry st).
Proof.
  intros Hp%state_pins_Some He. unfold pins_connect. monad_unfold.
  unfold getitem. rewrite Hp. monad_unfold. by rewrite He.
Qed.

(** [pins_connect] on any other pin raises and writes nothing; on a
    pin table without the pin the exception is [KeyError(pin)]. *)
Lemma pins_connect_unknown pin id props st :
  state_pins st ≫= (.!! pin) = None →
  ∃ e, pins_connect pin id props st = (Raise e, st) ∧
       (is_Some (state_pins st) → e = KeyError pin).
Proof.
  unfold pins_connect, state_pins, getitem. monad_unfold.
  destruct (st !! "pins") as [[| p |]|] eqn:Hp; simpl; intros H.
  - eexists. split; [done|]. by intros [? ?].
  - rewrite H. eexists. split; done.
  - eexists. split; [done|]. by intros [? ?].
  - eexists. split; [done|]. by intros [? ?].
Qed.

(** [pins_disconnect] of an edge registered on a known pin removes it. *)
Lemma pins_disconnect_known pin id st p entry props :
  state_pins st = Some p → p !! pin = Some entry →
  entry.2 !! uuid.str id = Some props →
  pins_disconnect pin id st = (Ok (), pins_without p pin (uuid.str id) entry st).
Proof.
  intros Hp%state_pins_Some He Hk. unfold pins_disconnect. monad_unfold.
  unfold getitem. rewrite Hp. monad_unfold. rewrite He. by rewrite Hk.
Qed.

(** [pins_disconnect] on an unknown pin raises and writes nothing. *)
Lemma pins_disconnect_unknown pin id st :
  state_pins st ≫= (.!! pin) = None →
  ∃ e, pins_disconnect pin id st = (Raise e, st).
Proof.
  unfold pins_disconnect, state_pins, getitem. monad_unfold.
  destruct (st !! "pins") as [[| p |]|] eqn:Hp; simpl; intros H; eauto.
  rewrite H. eauto.
Qed.

(** A method call on the component at [a] runs the method on its
    [_state] and stores the component back. *)
Lemma on_line_connect_eq w a o st pin id props :
  heap w !! a = Some o → component_state o = Some st →
  on_line_connect (VRef a) pin id props w =
    ((pins_connect pin id props st).1,
     store_at w a (with_state o (pins_connect pin id props st).2)).
Proof.
  intros Ha Hst. unfold on_line_connect, on_object. monad_unfold. rewrite Ha.
  destruct o as [r|v|e]; simpl in *; [| |done]; injection Hst as <-.
  - unfold as_Resistor, Resistor.on_line_connect, Resistor.on_state. monad_unfold.
    by destruct (pins_connect pin id props (Resistor._state r)).
  - unfold as_VoltageDC, VoltageDC.on_line_connect, VoltageDC.on_state. monad_unfold.
    by destruct (pins_connect pin id props (VoltageDC._state v)).
Qed.

Lemma on_line_disconnect_eq w a o st pin id :
  heap w !! a = Some o → component_state o = Some st →
  on_line_disconnect (VRef a) pin id w =
    ((pins_disconnect pin id st).1,
     store_at w a (with_state o (pins_disconnect pin id st).2)).
Proof.
  intros Ha Hst. unfold on_line_disconnect, on_object. monad_unfold. rewrite Ha.
  destruct o as [r|v|e]; simpl in *; [| |done]; injection Hst as <-.
  - unfold as_Resistor, Resistor.on_line_disconnect, Resistor.on_state. monad_unfold.
    by destruct (pins_disconnect pin id (Resistor._state r)).
  - unfold as_VoltageDC, VoltageDC.on_line_disconnect, VoltageDC.on_state. monad_unfold.
    by destruct (pins_disconnect pin id (VoltageDC._state v)).
Qed.

(** On anything that is not a component in the store, the call raises
    and writes nothing. *)
Lemma on_line_connect_not_component w target pin id props :
  is_ComponentNode w target = false →
  ∃ e, on_line_connect target pin id props w = (Raise e, w) ∧
       (is_LineEdge w target = true → e = no_on_line_connect).
Proof.
  unfold is_ComponentNode, is_LineEdge, on_line_connect, on_object, type_name.
  monad_unfold.
  destruct target as [| | | | |a|]; try (intros _; eexists; split; [done|done]).
  destruct (heap w !! a) as [[| |]|]; try done; intros _; eexists; split; done.
Qed.

Lemma on_line_disconnect_not_component w target pin id :
  is_ComponentNode w target = false →
  ∃ e, on_line_disconnect target pin id w = (Raise e, w).
Proof.
  unfold is_ComponentNode, on_line_disconnect, on_object. monad_unfold.
  destruct target as [| | | | |a|]; try (intros _; eexists; done).
  destruct (heap w !! a) as [[| |]|]; try done; intros _; eexists; done.
Qed.

(** ** What a method call leaves in place *)

Lemma skeleton_store_at w a o st :
  heap w !! a = Some o → skeleton (store_at w a (with_state o st)) = skeleton w.
Proof.
  intros Ha. unfold skeleton, store_at. simpl.
  rewrite list_fmap_insert, with_state_with_state.
  apply list_insert_id. by rewrite list_lookup_fmap, Ha.
Qed.

Lemma skeleton_lookup w a : skeleton w !! a = (λ o, with_state o ∅) <$> heap w !! a.
Proof. apply list_lookup_fmap. Qed.

Lemma skeleton_LineEdge w w' a e :
  skeleton w' = skeleton w →
  heap w !! a = Some (OLineEdge e) → heap w' !! a = Some (OLineEdge e).
Proof.
  intros Hs Ha. pose proof (skeleton_lookup w' a) as H'.
  rewrite Hs, skeleton_lookup, Ha in H'. simpl in H'.
  destruct (heap w' !! a) as [[]|]; simpl in H'; congruence.
Qed.

Lemma skeleton_is_ComponentNode w w' v :
  skeleton w' = skeleton w → is_ComponentNode w' v = is_ComponentNode w v.
Proof.
  intros Hs. destruct v as [| | | | |a|]; try done. simpl.
  pose proof (skeleton_lookup w' a) as H'. rewrite Hs, skeleton_lookup in H'.
  destruct (heap w !! a) as [[]|], (heap w' !! a) as [[]|]; simpl in H'; congruence.
Qed.

Lemma skeleton_is_LineEdge w w' v :
  skeleton w' = skeleton w → is_LineEdge w' v = is_LineEdge w v.
Proof.
  intros Hs. destruct v as [| | | | |a|]; try done. simpl.
  pose proof (skeleton_lookup w' a) as H'. rewrite Hs, skeleton_lookup in H'.
  destruct (heap w !! a) as [[]|], (heap w' !! a) as [[]|]; simpl in H'; congruence.
Qed.

Lemma skeleton_length w w' :
  skeleton w' = skeleton w → length (heap w') = length (heap w).
Proof.
  intros Hs. apply (f_equal length) in Hs. unfold skeleton in Hs.
  by rewrite !length_fmap in Hs.
Qed.

(** [on_line_connect] writes only the [_state] of its target, whatever
    its outcome. *)
Lemma on_line_connect_skeleton target pin id props w :
  skeleton (on_line_connect target pin id props w).2 = skeleton w ∧
  uuid4_calls (on_line_connect target pin id props w).2 = uuid4_calls w.
Proof.
  destruct (is_ComponentNode w target) eqn:Hc.
  - destruct target as [| | | | |a|]; try done. simpl in Hc.
    destruct (heap w !! a) as [o|] eqn:Ha; [|done].
    assert (∃ st, component_state o = Some st) as [st Hst].
    { destruct o; simpl in *; eauto. done. }
    rewrite (on_line_connect_eq w a o st) by done. simpl.
    split; [|done]. by apply skeleton_store_at.
  - destruct (on_line_connect_not_component w target pin id props Hc) as (e & -> & _).
    done.
Qed.

(** ** link *)

Lemma new_LineEdge_eq w props u_id u_pin v_id v_pin :
  new_LineEdge [VPhys props; VStr u_id; VStr u_pin; VStr v_id; VStr v_pin] w =
    (Ok (length (heap w)), with_edge w (link_edge w props u_id u_pin v_id v_pin)).
Proof. done. Qed.

Lemma with_edge_lookup w e : heap (with_edge w e) !! length (heap w) = Some (OLineEdge e).
Proof. simpl. by apply list_lookup_middle. Qed.

Lemma with_edge_lookup_lt w e a :
  a < length (heap w) → heap (with_edge w e) !! a = heap w !! a.
Proof. intros H. simpl. by apply lookup_app_l. Qed.

Lemma get_uuid_edge w a e : heap w !! a = Some (OLineEdge e) →
  get_uuid a w = (Ok (LineEdge.uuid e), w).
Proof. intros H. unfold get_uuid. monad_unfold. by rewrite H. Qed.

Lemma in_world_eq {A} (m : M World A) g w :
  CircuitGraph.in_world m (g, w) = ((m w).1, (g, (m w).2)).
Proof. unfold CircuitGraph.in_world, zoom. simpl. by destruct (m w). Qed.

(** [link] in one equation: the steps in order, each one's failure
    ending the call with what was written so far. *)
Lemma link_eq label u_id u_pin v_id v_pin props g w :
  let e := link_edge w props u_id u_pin v_id v_pin in
  let id := LineEdge.uuid e in
  let w1 := with_edge w e in
  CircuitGraph.link label (u_id, u_pin) (v_id, v_pin) props (g, w) =
    match CircuitGraph._labels g !! u_id with
    | None => (Raise (KeyError u_id), (g, w1))
    | Some u =>
        match on_line_connect u u_pin id props w1 with
        | (Raise ex, w2) => (Raise ex, (g, w2))
        | (Ok _, w2) =>
            match CircuitGraph._labels g !! v_id with
            | None => (Raise (KeyError v_id), (g, w2))
            | Some v =>
                match on_line_connect v v_pin id props w2 with
                | (Raise ex, w3) => (Raise ex, (g, w3))
                | (Ok _, w3) =>
                    match CircuitGraph.define label (VRef (length (heap w))) (g, w3) with
                    | (Raise ex, s) => (Raise ex, s)
                    | (Ok _, s) => (Ok id, s)
                    end
                end
            end
        end
    end.
Proof.
  intros e id w1. unfold CircuitGraph.link. cbv beta iota zeta.
  erewrite bind_Ok; last first.
  { by rewrite in_world_eq, new_LineEdge_eq. }
  fold e w1. cbn [fst snd].
  erewrite bind_Ok by done.
  destruct (CircuitGraph._labels g !! u_id) as [u|] eqn:Hu; last first.
  { erewrite bind_Raise; [done|]. by apply getitem_None. }
  erewrite bind_Ok by (by apply getitem_Some).
  pose proof (with_edge_lookup w e) as He1. fold w1 in He1.
  erewrite bind_Ok; last first.
  { by rewrite in_world_eq, (get_uuid_edge w1 _ e). }
  cbn [fst snd]. fold id.
  pose proof (on_line_connect_skeleton u u_pin id props w1) as [Hs2 _].
  destruct (on_line_connect u u_pin id props w1) as [[[]|ex] w2] eqn:Hcu; last first.
  { erewrite bind_Raise; [done|].
    by rewrite in_world_eq, Hcu. }
  erewrite bind_Ok; last first.
  { by rewrite in_world_eq, Hcu. }
  cbn [fst snd] in *. erewrite bind_Ok by done.
  destruct (CircuitGraph._labels g !! v_id) as [v|] eqn:Hv; last first.
  { erewrite bind_Raise; [done|]. by apply getitem_None. }
  erewrite bind_Ok by (by apply getitem_Some).
  pose proof (skeleton_LineEdge _ _ _ _ Hs2 He1) as He2.
  erewrite bind_Ok; last first.
  { by rewrite in_world_eq, (get_uuid_edge w2 _ e). }
  cbn [fst snd]. fold id.
  pose proof (on_line_connect_skeleton v v_pin id props w2) as [Hs3 _].
  destruct (on_line_connect v v_pin id props w2) as [[[]|ex] w3] eqn:Hcv; last first.
  { erewrite bind_Raise; [done|].
    by rewrite in_world_eq, Hcv. }
  erewrite bind_Ok; last first.
  { by rewrite in_world_eq, Hcv. }
  cbn [fst snd] in *.
  pose proof (skeleton_LineEdge _ _ _ _ Hs3 He2) as He3.
  pose proof (define_eq label (VRef (length (heap w))) g w3) as Hd.
  destruct (CircuitGraph.define label (VRef (length (heap w))) (g, w3))
    as [[[]|ex] [g' w4]] eqn:Hdef; last first.
  { by erewrite bind_Raise. }
  erewrite bind_Ok by done.
  assert (w4 = w3) as ->.
  { repeat case_match; congruence. }
  by rewrite in_world_eq, (get_uuid_edge w3 _ e).
Qed.

(** ** Known pins *)

Lemma connections_Some w a pin d :
  connections w a pin = Some d ↔
  ∃ o st p entry, heap w !! a = Some o ∧ component_state o = Some st ∧
    state_pins st = Some p ∧ p !! pin = Some entry ∧ d = entry.2.
Proof.
  unfold connections, component_pins. split.
  - destruct (heap w !! a) as [o|]; simpl; [|done].
    destruct (component_state o) as [st|] eqn:Hst; simpl; [|done].
    destruct (state_pins st) as [p|] eqn:Hp; simpl; [|done].
    destruct (p !! pin) as [entry|] eqn:He; simpl; [|done].
    intros [= <-]. by exists o, st, p, entry.
  - intros (o & st & p & entry & -> & Hst & Hp & He & ->). simpl.
    rewrite Hst. simpl. rewrite Hp. simpl. by rewrite He.
Qed.

Lemma has_pin_true w a pin :
  has_pin w a pin = true ↔ ∃ d, connections w a pin = Some d.
Proof. unfold has_pin. by rewrite bool_decide_eq_true. Qed.

Lemma has_pin_is_ComponentNode w a pin :
  has_pin w a pin = true → is_ComponentNode w (VRef a) = true.
Proof.
  intros [d (o & st & _ & _ & Ha & Hst & _)%connections_Some]%has_pin_true.
  simpl. rewrite Ha. by destruct o.
Qed.

(** On a known pin [on_line_connect] returns, the edge is registered on
    that pin with its properties, and no other pin of any component
    changes. *)
Lemma on_line_connect_known w a pin id props :
  has_pin w a pin = true →
  (on_line_connect (VRef a) pin id props w).1 = Ok () ∧
  ∀ a' pin',
    connections (on_line_connect (VRef a) pin id props w).2 a' pin' =
      if bool_decide (a' = a ∧ pin' = pin)
      then <[uuid.str id := props]> <$> connections w a' pin'
      else connections w a' pin'.
Proof.
  intros [d (o & st & p & entry & Ha & Hst & Hp & He & ->)%connections_Some]%has_pin_true.
  rewrite (on_line_connect_eq w a o st) by done.
  rewrite (pins_connect_known pin id props st p entry) by done. simpl.
  split; [done|]. intros a' pin'. unfold connections at 1. simpl.
  destruct (decide (a' = a)) as [->|Hne].
  - rewrite list_lookup_insert_eq by (by eapply lookup_lt_Some). simpl.
    unfold component_pins. rewrite (component_state_with_state o st) by done. simpl.
    unfold pins_with. rewrite state_pins_insert. simpl.
    assert (connections w a pin' = (p !! pin') ≫= (λ entry, Some entry.2)) as ->.
    { unfold connections, component_pins. rewrite Ha. simpl. rewrite Hst. simpl.
      by rewrite Hp. }
    destruct (decide (pin' = pin)) as [->|Hpin].
    + rewrite bool_decide_eq_true_2 by done.
      rewrite lookup_insert_eq, He. done.
    + rewrite bool_decide_eq_false_2 by (by intros [_ ?]).
      by rewrite lookup_insert_ne.
  - rewrite bool_decide_eq_false_2 by (by intros [? _]).
    rewrite list_lookup_insert_ne by done. done.
Qed.

(** On a pin that is not known, of anything, [on_line_connect] raises
    and the store is as before. *)
Lemma on_line_connect_unknown w a pin id props :
  has_pin w a pin = false →
  ∃ e, on_line_connect (VRef a) pin id props w = (Raise e, w) ∧
       (is_ComponentNode w (VRef a) = true →
        is_Some (heap w !! a ≫= component_pins) → e = KeyError pin).
Proof.
  intros Hpin. destruct (is_ComponentNode w (VRef a)) eqn:Hc; last first.
  { destruct (on_line_connect_not_component w (VRef a) pin id props Hc) as (e & He & _).
    exists e. split; [done|]. done. }
  simpl in Hc. destruct (heap w !! a) as [o|] eqn:Ha; [|done].
  assert (∃ st, component_state o = Some st) as [st Hst].
  { destruct o; simpl in *; eauto. done. }
  assert (state_pins st ≫= (.!! pin) = None) as Hnone.
  { apply bool_decide_eq_false in Hpin. apply eq_None_not_Some. intros [entry He].
    apply Hpin. exists entry.2. unfold connections, component_pins.
    rewrite Ha. simpl. rewrite Hst. simpl.
    destruct (state_pins st) as [p|]; simpl in *; [|done]. by rewrite He. }
  destruct (pins_connect_unknown pin id props st Hnone) as (e & He & Hkey).
  exists e. rewrite (on_line_connect_eq w a o st) by done. rewrite He. simpl.
  rewrite with_state_id by done. rewrite store_at_id by done. split; [done|].
  intros _ Hsome. apply Hkey. simpl in Hsome. unfold component_pins in Hsome.
  by rewrite Hst in Hsome.
Qed.

Lemma is_ComponentNode_with_edge w e v :
  is_ComponentNode (with_edge w e) v = is_ComponentNode w v.
Proof.
  destruct v as [| | | | |a|]; try done. simpl.
  destruct (decide (a < length (heap w))) as [Hlt|Hge].
  - by rewrite lookup_app_l.
  - rewrite (lookup_ge_None_2 (heap w)) by lia.
    destruct (decide (a = length (heap w))) as [->|Hne].
    + by rewrite list_lookup_middle.
    + rewrite lookup_ge_None_2; [done|]. rewrite length_app. simpl. lia.
Qed.

Lemma is_LineEdge_with_edge w e v :
  is_LineEdge w v = true → is_LineEdge (with_edge w e) v = true.
Proof.
  destruct v as [| | | | |a|]; try done. simpl.
  destruct (heap w !! a) as [o|] eqn:Ha; [|done].
  by rewrite (lookup_app_l_Some _ _ _ _ Ha).
Qed.

Lemma is_LineEdge_not_ComponentNode w v :
  is_LineEdge w v = true → is_ComponentNode w v = false.
Proof.
  destruct v as [| | | | |a|]; try done. simpl.
  by destruct (heap w !! a) as [[]|].
Qed.

Lemma connections_with_edge w e a pin :
  a < length (heap w) → connections (with_edge w e) a pin = connections w a pin.
Proof. intros H. unfold connections. simpl. by rewrite lookup_app_l. Qed.

Lemma has_pin_lt w a pin : has_pin w a pin = true → a < length (heap w).
Proof.
  intros [d (o & _ & _ & _ & Ha & _)%connections_Some]%has_pin_true.
  by eapply lookup_lt_Some.
Qed.

Lemma has_pin_with_edge w e a pin :
  has_pin w a pin = true → has_pin (with_edge w e) a pin = true.
Proof.
  intros H. pose proof (has_pin_lt _ _ _ H). unfold has_pin in *.
  by rewrite connections_with_edge.
Qed.

Lemma has_pin_connect w a pin id props a' pin' :
  has_pin w a pin = true →
  has_pin (on_line_connect (VRef a) pin id props w).2 a' pin' = has_pin w a' pin'.
Proof.
  intros H. destruct (on_line_connect_known w a pin id props H) as [_ Hc].
  unfold has_pin. rewrite Hc.
  destruct (bool_decide (a' = a ∧ pin' = pin)); [|done].
  apply bool_decide_ext. by rewrite fmap_is_Some.
Qed.

Lemma has_pin_with_edge_eq w e a pin :
  has_pin (with_edge w e) a pin = has_pin w a pin.
Proof.
  unfold has_pin. apply bool_decide_ext.
  destruct (decide (a < length (heap w))) as [Hlt|Hge].
  - by rewrite connections_with_edge.
  - unfold connections. rewrite (lookup_ge_None_2 (heap w)) by lia.
    destruct (decide (a = length (heap w))) as [->|Hne].
    + by rewrite with_edge_lookup.
    + rewrite lookup_ge_None_2; [done|]. simpl. rewrite length_app. simpl. lia.
Qed.

(** [on_line_connect] returns only on a known pin of a component. *)
Lemma on_line_connect_Ok_known w target pin id props w' :
  on_line_connect target pin id props w = (Ok (), w') →
  ∃ a, target = VRef a ∧ has_pin w a pin = true.
Proof.
  intros Hok. destruct (is_ComponentNode w target) eqn:Hc; last first.
  { destruct (on_line_connect_not_component w target pin id props Hc) as (e & He & _).
    congruence. }
  destruct target as [| | | | |a|]; try done. exists a. split; [done|].
  destruct (has_pin w a pin) eqn:Hpin; [done|].
  destruct (on_line_connect_unknown w a pin id props Hpin) as (e & He & _). congruence.
Qed.

(** [link] returns only when both endpoint labels name components and
    both pins are keys of their pin tables: whatever [input_basis_table]
    says, these are the pins an edge made by [link] can name. *)
Lemma link_Ok_known_pins label u_id u_pin v_id v_pin props g w id s' :
  CircuitGraph.link label (u_id, u_pin) (v_id, v_pin) props (g, w) = (Ok id, s') →
  label_has_pin g w u_id u_pin = true ∧ label_has_pin g w v_id v_pin = true.
Proof.
  rewrite link_eq. cbv zeta. unfold label_has_pin.
  set (e := link_edge w props u_id u_pin v_id v_pin).
  destruct (CircuitGraph._labels g !! u_id) as [u|]; [|done].
  destruct (on_line_connect u u_pin (LineEdge.uuid e) props (with_edge w e))
    as [[[]|ex] w2] eqn:Hcu; [|done].
  pose proof Hcu as Hcu'.
  apply on_line_connect_Ok_known in Hcu as (au & -> & Hpu).
  destruct (CircuitGraph._labels g !! v_id) as [v|]; [|done].
  destruct (on_line_connect v v_pin (LineEdge.uuid e) props w2)
    as [[[]|ex] w3] eqn:Hcv; [|done].
  apply on_line_connect_Ok_known in Hcv as (av & -> & Hpv).
  intros _. rewrite has_pin_with_edge_eq in Hpu. split; [done|].
  pose proof (has_pin_connect (with_edge w e) au u_pin (LineEdge.uuid e) props av v_pin)
    as Hsame.
  rewrite Hcu' in Hsame. cbn [snd] in Hsame.
  rewrite Hsame in Hpv by (by rewrite has_pin_with_edge_eq).
  by rewrite has_pin_with_edge_eq in Hpv.
Qed.

(** The ids in the store stay among the drawn ones. *)
Lemma ids_drawn_with_edge w props u_id u_pin v_id v_pin :
  ids_drawn w → ids_drawn (with_edge w (link_edge w props u_id u_pin v_id v_pin)).
Proof.
  intros Hw a e. simpl. intros Ha.
  destruct (decide (a < length (heap w))) as [Hlt|Hge].
  - rewrite lookup_app_l in Ha by done. specialize (Hw a e Ha). lia.
  - destruct (decide (a = length (heap w))) as [->|Hne].
    + rewrite list_lookup_middle in Ha by done. injection Ha as <-. simpl. lia.
    + rewrite lookup_ge_None_2 in Ha; [done|]. rewrite length_app. simpl. lia.
Qed.

Lemma ids_drawn_skeleton w w' :
  skeleton w = skeleton w' → uuid4_calls w = uuid4_calls w' →
  ids_drawn w' → ids_drawn w.
Proof.
  intros Hs Hn Hw a e Ha. rewrite Hn. apply (Hw a e).
  by apply (skeleton_LineEdge w w').
Qed.

(** * The claims *)

(** C10. Whenever [define] fails, the graph is exactly as before the
    call: the state it runs on (the graph instance and the store) is
    unchanged, so the label table, the component list and the edge list
    are those of before; and the failure is the duplicate label or the
    unrecognised item type. *)
Theorem define_failure_leaves_graph_unchanged
    (label : string) (item : pyval) (s s' : CircuitGraph.state) (e : exn) :
  CircuitGraph.define label item s = (Raise e, s') →
  s' = s ∧
  CircuitGraph._labels s'.1 = CircuitGraph._labels s.1 ∧
  CircuitGraph._c_nodes s'.1 = CircuitGraph._c_nodes s.1 ∧
  CircuitGraph._l_edges s'.1 = CircuitGraph._l_edges s.1 ∧
  (e = duplicate_label ∨ e = unrecognised_item s.2 label item).
Proof.
  destruct s as [g w]. rewrite define_eq.
  repeat case_match; intros [= <- <-]; simpl; auto 10.
Qed.

Lemma define_failure_leaves_graph_unchanged_witness :
  CircuitGraph.define "r1" (VNum (Int 5)) s_rv = (Raise duplicate_label, s_rv) ∧
  CircuitGraph._labels s_rv.1 = CircuitGraph._labels s_rv.1 ∧
  CircuitGraph._c_nodes s_rv.1 = CircuitGraph._c_nodes s_rv.1.
Proof.
  assert (CircuitGraph.define "r1" (VNum (Int 5)) s_rv = (Raise duplicate_label, s_rv)) as H.
  { vm_compute. reflexivity. }
  split; [exact H|].
  destruct (define_failure_leaves_graph_unchanged "r1" (VNum (Int 5)) s_rv s_rv
              duplicate_label H) as (_ & Hl & Hc & _).
  split; [exact Hl | exact Hc].
Defined.

(** C2, as stated, fails where its two conditions meet: an item that is
    neither a component nor an edge, defined under a label already in
    the table, fails as a duplicate label and not as an unrecognised
    item type. *)
Lemma define_bad_item_duplicate_label_counterexample :
  is_ComponentNode s_rv.2 (VNum (Int 5)) = false ∧
  is_LineEdge s_rv.2 (VNum (Int 5)) = false ∧
  is_Some (CircuitGraph._labels s_rv.1 !! "r1") ∧
  CircuitGraph.define "r1" (VNum (Int 5)) s_rv =
    (Raise (KeyError "CircuitGraph.define(): Cannot define component"), s_rv).
Proof.
  split; [reflexivity|]. split; [reflexivity|].
  split; [by vm_compute; eexists|]. vm_compute. reflexivity.
Qed.

(** C2 (amended). In every run of [define] calls, from any graph, no two
    calls succeed with the same label: once one has succeeded, every
    later [define] of that label fails with the duplicate-label
    condition. A [define] whose label is already in the table always
    fails with the duplicate-label condition, whatever the item. A
    [define] whose item is neither a ComponentNode nor a LineEdge
    always fails: with the duplicate-label condition when the label is
    in the table, with the unrecognised-item-type condition when it is
    not. *)
Theorem define_labels_unique :
  (∀ (calls : list (string * pyval)) (s : CircuitGraph.state) (i j : nat)
     (label : string) (x y : pyval),
     i < j → calls !! i = Some (label, x) → calls !! j = Some (label, y) →
     (run_calls (define_call <$> calls) s).1 !! i = Some (Ok ()) →
     (run_calls (define_call <$> calls) s).1 !! j = Some (Raise duplicate_label)) ∧
  (∀ (label : string) (item : pyval) (g : CircuitGraph.t) (w : World),
     is_Some (CircuitGraph._labels g !! label) →
     CircuitGraph.define label item (g, w) = (Raise duplicate_label, (g, w))) ∧
  (∀ (label : string) (item : pyval) (g : CircuitGraph.t) (w : World),
     is_ComponentNode w item = false → is_LineEdge w item = false →
     CircuitGraph.define label item (g, w) =
       (Raise (if bool_decide (is_Some (CircuitGraph._labels g !! label))
               then duplicate_label
               else unrecognised_item w label item), (g, w))).
Proof.
  split; [|split].
  - intros calls. induction calls as [|c calls IH]; intros s i j label x y Hij Hi Hj Hok;
      [done|].
    destruct j as [|j]; [lia|].
    rewrite fmap_cons, run_calls_cons in *. cbn [fst] in *.
    destruct i as [|i]; cbn [lookup list_lookup] in *.
    + injection Hi as ->. injection Hok as Hok.
      eapply run_defines_taken; [|done].
      unfold define_call in *. cbn [fst snd] in *.
      destruct (CircuitGraph.define label x s) as [r s1] eqn:Hd.
      cbn [fst snd] in *. subst r. by eapply define_Ok_label.
    + eapply (IH _ i j); [lia|done..].
  - intros. by apply define_duplicate.
  - intros label item g w Hc He. rewrite define_eq, Hc, He. by case_bool_decide.
Qed.

Lemma define_labels_unique_witness :
  let calls := [("x", VRef 0); ("y", VNum (Int 5)); ("x", VRef 1)] in
  (run_calls (define_call <$> calls) s_rv).1 !! 0 = Some (Ok ()) ∧
  (run_calls (define_call <$> calls) s_rv).1 !! 2 = Some (Raise duplicate_label) ∧
  CircuitGraph.define "r1" (VRef 1) s_rv = (Raise duplicate_label, s_rv) ∧
  CircuitGraph.define "y" (VNum (Int 5)) s_rv =
    (Raise (TypeError (
       "CircuitGraph.define(): Attempt to add unrecognised item type provided: " +:+
       "int  with label y.")), s_rv).
Proof.
  intros calls. destruct define_labels_unique as (Hrun & Hdup & Hbad).
  assert ((run_calls (define_call <$> calls) s_rv).1 !! 0 = Some (Ok ())) as H0.
  { vm_compute. reflexivity. }
  split; [exact H0|]. split.
  { apply (Hrun calls s_rv 0 2 "x" (VRef 0) (VRef 1));
      [lia | reflexivity | reflexivity | exact H0]. }
  split.
  { apply (Hdup "r1" (VRef 1) s_rv.1 s_rv.2). vm_compute. eexists. reflexivity. }
  exact (Hbad "y" (VNum (Int 5)) s_rv.1 s_rv.2 eq_refl eq_refl).
Defined.

(** C1, as stated, fails: endpoint labels that name previously defined
    components are not enough for [link] to return. With an endpoint
    pin that the component does not have, [link] raises [KeyError] on
    the pin; with a label already in the table, [link] raises the
    duplicate-label [KeyError] from [define], after both components
    have registered the edge. *)
Lemma link_defined_endpoints_counterexample :
  names_component s_rv.1 s_rv.2 "r1" = true ∧
  names_component s_rv.1 s_rv.2 "v1" = true ∧
  (CircuitGraph.link "e1" ("r1", "p3") ("v1", "pos")
     CircuitGraph.default_line_properties s_rv).1 = Raise (KeyError "p3") ∧
  (CircuitGraph.link "r1" ("r1", "p1") ("v1", "pos")
     CircuitGraph.default_line_properties s_rv).1 = Raise duplicate_label.
Proof. repeat split; vm_compute; reflexivity. Qed.

(** C1 (amended). For every graph and every call
    [link(label, (u_label, u_pin), (v_label, v_pin), properties)] whose
    endpoint labels name previously defined components, whose pins are
    pins of those components (keys of their pin tables), and whose
    [label] is not yet in the label table: [link] creates a LineEdge
    with a fresh unique id carrying the given properties and endpoints,
    invokes [on_line_connect] on both endpoint components for their
    respective pins with that id and those properties (both calls
    return, and the edge is then registered on both pins), then defines
    the edge under [label], and returns the new edge's id. *)
Theorem link_creates_connects_defines
    (g : CircuitGraph.t) (w : World) (label u_id u_pin v_id v_pin : string)
    (props : PhysicalProperties) (au av : addr) :
  CircuitGraph._labels g !! label = None →
  CircuitGraph._labels g !! u_id = Some (VRef au) →
  CircuitGraph._labels g !! v_id = Some (VRef av) →
  has_pin w au u_pin = true →
  has_pin w av v_pin = true →
  ids_drawn w →
  let e := link_edge w props u_id u_pin v_id v_pin in
  let id := N.of_nat (uuid4_calls w) in
  let edge := length (heap w) in
  ∃ w1 w2 w3 : World,
    (* the edge is created, with an id no edge of the store has *)
    new_LineEdge [VPhys props; VStr u_id; VStr u_pin; VStr v_id; VStr v_pin] w
      = (Ok edge, w1) ∧
    heap w1 !! edge = Some (OLineEdge e) ∧ LineEdge.uuid e = id ∧
    (∀ a e0, heap w !! a = Some (OLineEdge e0) → LineEdge.uuid e0 ≠ id) ∧
    (* both endpoints are connected, in this order *)
    on_line_connect (VRef au) u_pin id props w1 = (Ok (), w2) ∧
    on_line_connect (VRef av) v_pin id props w2 = (Ok (), w3) ∧
    (* the edge is defined under the label *)
    CircuitGraph.define label (VRef edge) (g, w3)
      = (Ok (), (defined_edge g label (VRef edge), w3)) ∧
    (* and this is the call, which returns the id *)
    CircuitGraph.link label (u_id, u_pin) (v_id, v_pin) props (g, w)
      = (Ok id, (defined_edge g label (VRef edge), w3)) ∧
    (* afterwards: the edge is in the store, registered on both pins *)
    heap w3 !! edge = Some (OLineEdge e) ∧
    connections w3 au u_pin ≫= (.!! uuid.str id) = Some props ∧
    connections w3 av v_pin ≫= (.!! uuid.str id) = Some props ∧
    (∀ a pin, (a, pin) ≠ (au, u_pin) → (a, pin) ≠ (av, v_pin) →
       connections w3 a pin = connections w a pin) ∧
    ids_drawn w3.
Proof.
  intros Hlabel Hu Hv Hpu Hpv Hids e id edge.
  set (w1 := with_edge w e).
  pose proof (has_pin_with_edge w e au u_pin Hpu) as Hpu1. fold w1 in Hpu1.
  pose proof (has_pin_with_edge w e av v_pin Hpv) as Hpv1. fold w1 in Hpv1.
  pose proof (on_line_connect_known w1 au u_pin id props Hpu1) as [Hok2 Hc2].
  pose proof (on_line_connect_skeleton (VRef au) u_pin id props w1) as [Hs2 Hn2].
  pose proof (has_pin_connect w1 au u_pin id props av v_pin Hpu1) as Hpv2.
  destruct (on_line_connect (VRef au) u_pin id props w1) as [r2 w2] eqn:Hcu.
  cbn [fst snd] in *. subst r2. rewrite Hpv1 in Hpv2.
  pose proof (on_line_connect_known w2 av v_pin id props Hpv2) as [Hok3 Hc3].
  pose proof (on_line_connect_skeleton (VRef av) v_pin id props w2) as [Hs3 Hn3].
  destruct (on_line_connect (VRef av) v_pin id props w2) as [r3 w3] eqn:Hcv.
  cbn [fst snd] in *. subst r3.
  pose proof (with_edge_lookup w e) as He1. fold w1 edge in He1.
  assert (heap w3 !! edge = Some (OLineEdge e)) as He3.
  { apply (skeleton_LineEdge w2 w3); [done|]. by apply (skeleton_LineEdge w1 w2). }
  assert (CircuitGraph.define label (VRef edge) (g, w3)
          = (Ok (), (defined_edge g label (VRef edge), w3))) as Hdef.
  { rewrite define_eq. rewrite bool_decide_eq_false_2; last first.
    { rewrite Hlabel. by intros [? ?]. }
    simpl. by rewrite He3. }
  exists w1, w2, w3. repeat split; try done.
  - intros a e0 Ha Hid. specialize (Hids a e0 Ha). unfold id in Hid. lia.
  - pose proof (link_eq label u_id u_pin v_id v_pin props g w) as Hlink.
    cbv zeta in Hlink. fold e w1 in Hlink. rewrite Hu, Hv in Hlink.
    change (LineEdge.uuid e) with id in Hlink.
    rewrite Hcu, Hcv in Hlink. fold edge in Hlink. by rewrite Hdef in Hlink.
  - rewrite Hc3, Hc2. unfold w1.
    apply has_pin_lt in Hpu as Hlt. rewrite connections_with_edge by done.
    apply has_pin_true in Hpu as [d Hd]. rewrite Hd.
    rewrite (bool_decide_eq_true_2 (au = au ∧ u_pin = u_pin)) by done.
    case_bool_decide; simpl; by rewrite ?lookup_insert_eq.
  - rewrite Hc3. rewrite bool_decide_eq_true_2 by done.
    apply has_pin_true in Hpv2 as [d Hd]. rewrite Hd. simpl.
    by rewrite lookup_insert_eq.
  - intros a pin Hneu Hnev. rewrite Hc3, Hc2.
    rewrite !bool_decide_eq_false_2 by (intros [-> ->]; done). unfold w1.
    destruct (decide (a < length (heap w))) as [Hlt|Hge].
    + by rewrite connections_with_edge.
    + unfold connections. rewrite (lookup_ge_None_2 (heap w)) by lia.
      destruct (decide (a = length (heap w))) as [->|Hne].
      * fold edge w1. by rewrite He1.
      * rewrite lookup_ge_None_2; [done|]. simpl. rewrite length_app. simpl. lia.
  - apply (ids_drawn_skeleton w3 w1); [congruence | congruence |].
    by apply ids_drawn_with_edge.
Qed.

Lemma ids_drawn_s_rv : ids_drawn s_rv.2.
Proof. intros [|[|a]] e H; vm_compute in H; discriminate. Qed.

Lemma link_creates_connects_defines_witness :
  CircuitGraph._labels s_rv.1 !! "e1" = None ∧
  CircuitGraph._labels s_rv.1 !! "v1" = Some (VRef 1) ∧
  CircuitGraph._labels s_rv.1 !! "r1" = Some (VRef 0) ∧
  has_pin s_rv.2 1 "pos" = true ∧
  has_pin s_rv.2 0 "p1" = true ∧
  (CircuitGraph.link "e1" ("v1", "pos") ("r1", "p1")
     CircuitGraph.default_line_properties s_rv).1 = Ok 0%N ∧
  connections s_rve.2 1 "pos" ≫= (.!! uuid.str 0%N) =
    Some CircuitGraph.default_line_properties.
Proof.
  assert (CircuitGraph._labels s_rv.1 !! "e1" = None) as H1 by (vm_compute; reflexivity).
  assert (CircuitGraph._labels s_rv.1 !! "v1" = Some (VRef 1)) as H2
    by (vm_compute; reflexivity).
  assert (CircuitGraph._labels s_rv.1 !! "r1" = Some (VRef 0)) as H3
    by (vm_compute; reflexivity).
  assert (has_pin s_rv.2 1 "pos" = true) as H4 by (vm_compute; reflexivity).
  assert (has_pin s_rv.2 0 "p1" = true) as H5 by (vm_compute; reflexivity).
  destruct (link_creates_connects_defines s_rv.1 s_rv.2 "e1" "v1" "pos" "r1" "p1"
              CircuitGraph.default_line_properties 1 0 H1 H2 H3 H4 H5 ids_drawn_s_rv)
    as (w1 & w2 & w3 & _ & _ & _ & _ & _ & _ & _ & Hlink & _ & Hu & _).
  do 5 (split; [assumption|]). split.
  - change s_rv with (s_rv.1, s_rv.2). rewrite Hlink. reflexivity.
  - unfold s_rve. change s_rv with (s_rv.1, s_rv.2). rewrite Hlink. exact Hu.
Defined.

(** C3, as stated, fails: when an endpoint label names a previously
    defined edge rather than a component, [link] fails with an
    [AttributeError] (a LineEdge has no [on_line_connect]), which is not
    the unknown-label condition; and when the first endpoint's pin is
    unknown, that [KeyError] on the pin comes before the second label is
    looked up. *)
Lemma link_edge_label_counterexample :
  names_component s_rve.1 s_rve.2 "e1" = false ∧
  (CircuitGraph.link "e2" ("e1", "p1") ("r1", "p2")
     CircuitGraph.default_line_properties s_rve).1 =
    Raise (AttributeError "'LineEdge' object has no attribute 'on_line_connect'") ∧
  names_component s_rve.1 s_rve.2 "nowhere" = false ∧
  (CircuitGraph.link "e2" ("r1", "p3") ("nowhere", "p1")
     CircuitGraph.default_line_properties s_rve).1 = Raise (KeyError "p3").
Proof. repeat split; vm_compute; reflexivity. Qed.

(** C3 (amended). For every graph, [link] fails whenever either
    [u_label] or [v_label] is not a previously defined component: the
    call raises to its caller, and the graph instance (label table,
    component list, edge list) is as before, so no edge is defined. The
    failure is the unknown-label condition [KeyError(u_label)] when
    [u_label] is not in the label table, and [KeyError(v_label)] when
    [u_label] names a component that has [u_pin] and [v_label] is not
    in the label table; under the same conditions a label that names an
    edge fails with [AttributeError] instead. *)
Theorem link_fails_without_components
    (g : CircuitGraph.t) (w : World) (label u_id u_pin v_id v_pin : string)
    (props : PhysicalProperties) :
  names_component g w u_id = false ∨ names_component g w v_id = false →
  ∃ (ex : exn) (w' : World),
    CircuitGraph.link label (u_id, u_pin) (v_id, v_pin) props (g, w)
      = (Raise ex, (g, w')) ∧
    (CircuitGraph._labels g !! u_id = None → ex = KeyError u_id) ∧
    (∀ u, CircuitGraph._labels g !! u_id = Some u → is_LineEdge w u = true →
       ex = no_on_line_connect) ∧
    (label_has_pin g w u_id u_pin = true →
       (CircuitGraph._labels g !! v_id = None → ex = KeyError v_id) ∧
       (∀ v, CircuitGraph._labels g !! v_id = Some v → is_LineEdge w v = true →
          ex = no_on_line_connect)).
Proof.
  intros Hnot. rewrite link_eq. cbv zeta.
  set (e := link_edge w props u_id u_pin v_id v_pin).
  unfold names_component, label_has_pin in *.
  destruct (CircuitGraph._labels g !! u_id) as [u|] eqn:Hu;
    [|do 2 eexists; split; [reflexivity|]; repeat split; done].
  pose proof (on_line_connect_skeleton u u_pin (LineEdge.uuid e) props (with_edge w e))
    as [Hs2 _].
  destruct (is_ComponentNode w u) eqn:Hcu; last first.
  { rewrite <- (is_ComponentNode_with_edge w e) in Hcu.
    destruct (on_line_connect_not_component _ _ u_pin (LineEdge.uuid e) props Hcu)
      as (ex & -> & Hattr).
    exists ex, (with_edge w e). split; [done|]. split; [done|]. split.
    - intros u' [= <-] Hedge. by apply Hattr, is_LineEdge_with_edge.
    - destruct u as [| | | | |a|]; try done. intros Hp%has_pin_is_ComponentNode.
      rewrite <- (is_ComponentNode_with_edge w e) in Hp. congruence. }
  destruct Hnot as [?|Hv]; [done|].
  assert (∀ u', Some u = Some u' → is_LineEdge w u' = true → False) as Hnotedge.
  { intros u' [= <-] Hedge. by rewrite (is_LineEdge_not_ComponentNode w u Hedge) in Hcu. }
  destruct (on_line_connect u u_pin (LineEdge.uuid e) props (with_edge w e))
    as [[[]|ex] w2] eqn:Hc2; cbn [snd] in Hs2; last first.
  { exists ex, w2. split; [done|]. split; [done|].
    split; [by intros u' Hu' Hedge; destruct (Hnotedge u' Hu' Hedge)|].
    destruct u as [| | | | |a|]; try done. intros Hp.
    apply (has_pin_with_edge w e) in Hp.
    destruct (on_line_connect_known _ _ _ (LineEdge.uuid e) props Hp) as [Hok _].
    rewrite Hc2 in Hok. done. }
  destruct (CircuitGraph._labels g !! v_id) as [v|] eqn:Hlv; last first.
  { do 2 eexists. split; [reflexivity|]. split; [done|].
    split; [by intros u' Hu' Hedge; destruct (Hnotedge u' Hu' Hedge)|]. done. }
  assert (is_ComponentNode w2 v = false) as Hcv.
  { by rewrite (skeleton_is_ComponentNode _ _ _ Hs2), is_ComponentNode_with_edge. }
  destruct (on_line_connect_not_component _ _ v_pin (LineEdge.uuid e) props Hcv)
    as (ex & -> & Hattr).
  exists ex, w2. split; [done|]. split; [done|].
  split; [by intros u' Hu' Hedge; destruct (Hnotedge u' Hu' Hedge)|].
  intros _. split; [done|]. intros v' [= <-] Hedge. apply Hattr.
  rewrite (skeleton_is_LineEdge _ _ _ Hs2). by apply is_LineEdge_with_edge.
Qed.

Lemma link_fails_without_components_witness :
  names_component s_rv.1 s_rv.2 "r1" = true ∧
  names_component s_rv.1 s_rv.2 "nowhere" = false ∧
  (CircuitGraph.link "e1" ("r1", "p1") ("nowhere", "p2")
     CircuitGraph.default_line_properties s_rv).1 = Raise (KeyError "nowhere") ∧
  (CircuitGraph.link "e1" ("r1", "p1") ("nowhere", "p2")
     CircuitGraph.default_line_properties s_rv).2.1 = s_rv.1.
Proof.
  assert (names_component s_rv.1 s_rv.2 "nowhere" = false) as Hv
    by (vm_compute; reflexivity).
  destruct (link_fails_without_components s_rv.1 s_rv.2 "e1" "r1" "p1" "nowhere" "p2"
              CircuitGraph.default_line_properties (or_intror Hv))
    as (ex & w' & Hlink & _ & _ & Hkey).
  split; [vm_compute; reflexivity|]. split; [exact Hv|].
  change s_rv with (s_rv.1, s_rv.2) at 1 3. rewrite Hlink. cbn [fst snd].
  split; [|reflexivity]. f_equal. apply Hkey; vm_compute; reflexivity.
Defined.

(** C8. For every component (of either variant), every known pin [pin]
    of it and every edge id with fixed properties: [on_line_connect],
    then [on_line_disconnect], then [on_line_connect] again all return,
    and leave the store, hence the component, in the same state as the
    single [on_line_connect]; whatever is computed from the component's
    state on the next tick is therefore the same. *)
Theorem reconnect_same_as_connect
    (w : World) (a : addr) (pin : string) (id : UUID) (props : PhysicalProperties) :
  has_pin w a pin = true →
  (on_line_connect (VRef a) pin id props w).1 = Ok () ∧
  run_calls [on_line_connect (VRef a) pin id props;
             on_line_disconnect (VRef a) pin id;
             on_line_connect (VRef a) pin id props] w
    = ([Ok (); Ok (); Ok ()], (on_line_connect (VRef a) pin id props w).2).
Proof.
  intros [d (o & st & p & entry & Ha & Hst & Hp & He & ->)%connections_Some]%has_pin_true.
  pose proof (lookup_lt_Some _ _ _ Ha) as Hlt.
  set (k := uuid.str id).
  (* first connect *)
  set (st1 := pins_with p pin k props entry st).
  assert (on_line_connect (VRef a) pin id props w
          = (Ok (), store_at w a (with_state o st1))) as H1.
  { rewrite (on_line_connect_eq w a o st) by done.
    by rewrite (pins_connect_known pin id props st p entry). }
  (* disconnect *)
  set (p1 := <[pin := (entry.1, <[k := props]> entry.2)]> p).
  set (entry1 := (entry.1, <[k := props]> entry.2)).
  set (st2 := pins_without p1 pin k entry1 st1).
  assert (on_line_disconnect (VRef a) pin id (store_at w a (with_state o st1))
          = (Ok (), store_at w a (with_state o st2))) as H2.
  { rewrite (on_line_disconnect_eq _ a (with_state o st1) st1);
      [|by apply store_at_lookup|by eapply component_state_with_state].
    rewrite (pins_disconnect_known pin id st1 p1 entry1 props).
    - cbn [fst snd]. by rewrite with_state_with_state, store_at_store_at.
    - apply state_pins_insert.
    - apply lookup_insert_eq.
    - apply lookup_insert_eq. }
  (* second connect *)
  set (p2 := <[pin := (entry1.1, delete k entry1.2)]> p1).
  set (entry2 := (entry1.1, delete k entry1.2)).
  assert (on_line_connect (VRef a) pin id props (store_at w a (with_state o st2))
          = (Ok (), store_at w a (with_state o st1))) as H3.
  { rewrite (on_line_connect_eq _ a (with_state o st2) st2);
      [|by apply store_at_lookup|by eapply component_state_with_state].
    rewrite (pins_connect_known pin id props st2 p2 entry2);
      [|apply state_pins_insert|apply lookup_insert_eq].
    cbn [fst snd]. rewrite with_state_with_state, store_at_store_at.
    do 3 f_equal. unfold pins_with, pins_without, st2, pins_without, st1, pins_with.
    rewrite !insert_insert_eq. do 2 f_equal.
    unfold p2, p1, entry2, entry1. cbn [fst snd]. fold k.
    by rewrite !insert_insert_eq, insert_delete_eq, insert_insert_eq. }
  split; [by rewrite H1|].
  rewrite !run_calls_cons. rewrite H1. cbn [fst snd]. rewrite H2. cbn [fst snd].
  rewrite H3. done.
Qed.

Lemma reconnect_same_as_connect_witness :
  has_pin s_rv.2 0 "p2" = true ∧
  has_pin s_rve.2 1 "pos" = true ∧
  (run_calls [on_line_connect (VRef 0) "p2" 7%N CircuitGraph.default_line_properties;
              on_line_disconnect (VRef 0) "p2" 7%N;
              on_line_connect (VRef 0) "p2" 7%N CircuitGraph.default_line_properties]
     s_rv.2).2
    = (on_line_connect (VRef 0) "p2" 7%N CircuitGraph.default_line_properties s_rv.2).2 ∧
  (run_calls [on_line_connect (VRef 1) "pos" 0%N CircuitGraph.default_line_properties;
              on_line_disconnect (VRef 1) "pos" 0%N;
              on_line_connect (VRef 1) "pos" 0%N CircuitGraph.default_line_properties]
     s_rve.2).1
    = [Ok (); Ok (); Ok ()].
Proof.
  assert (has_pin s_rv.2 0 "p2" = true) as H1 by (vm_compute; reflexivity).
  assert (has_pin s_rve.2 1 "pos" = true) as H2 by (vm_compute; reflexivity).
  split; [exact H1|]. split; [exact H2|]. split.
  - destruct (reconnect_same_as_connect s_rv.2 0 "p2" 7%N
                CircuitGraph.default_line_properties H1) as [_ ->]. reflexivity.
  - destruct (reconnect_same_as_connect s_rve.2 1 "pos" 0%N
                CircuitGraph.default_line_properties H2) as [_ ->]. reflexivity.
Defined.

(** ** The basis tables *)

(** C7. What the code does: on every Resistor, [input_basis_table()]
    raises [TypeError] while building a set of pin names and
    [PhysicalProperties] instances, so it yields no mapping at all; on
    every VoltageDC, [input_basis_table] is a mapping whose keys are
    ['pos'] and ['neg:'], while the pins of the component are ['pos']
    and ['neg']: the key set is not the set of valid pin names. *)
Theorem input_basis_table_keys :
  (∀ r : Resistor.t,
     Resistor.input_basis_table r =
       (Raise (TypeError "unhashable type: 'PhysicalProperties'"), r)) ∧
  (∀ v : VoltageDC.t,
     dom (VoltageDC.input_basis_table v) = ({[ "pos"; "neg:" ]} : gset string) ∧
     VoltageDC.input_basis_table v !! "neg" = None) ∧
  dom <$> state_pins (VoltageDC._state VoltageDC.__init__)
    = Some ({[ "pos"; "neg" ]} : gset string) ∧
  dom <$> state_pins (Resistor._state Resistor.__init__)
    = Some ({[ "p1"; "p2" ]} : gset string).
Proof.
  split; [done|]. split; [|split].
  - intros v. unfold VoltageDC.input_basis_table. split.
    + by rewrite dom_insert_L, dom_singleton_L.
    + by rewrite lookup_insert_ne, lookup_singleton_ne.
  - unfold state_pins, VoltageDC.__init__. cbn [VoltageDC._state].
    rewrite lookup_insert_ne by done. rewrite lookup_insert_eq.
    cbn [fmap option_fmap option_map]. by rewrite dom_insert_L, dom_singleton_L.
  - unfold state_pins, Resistor.__init__. cbn [Resistor._state].
    rewrite lookup_insert_ne by done. rewrite lookup_insert_eq.
    cbn [fmap option_fmap option_map]. by rewrite dom_insert_L, dom_singleton_L.
Qed.

(** C6. What the code does on a VoltageDC: ['neg:'] is a key of
    [input_basis_table], yet [on_line_connect] on it raises
    [KeyError] and registers nothing; ['neg'] is not a key of
    [input_basis_table], yet [on_line_connect] on it returns and
    registers the edge. *)
Theorem on_line_connect_against_basis_table :
  let props := CircuitGraph.default_line_properties in
  heap s_rv.2 !! 1 = Some (OVoltageDC VoltageDC.__init__) ∧
  is_Some (VoltageDC.input_basis_table VoltageDC.__init__ !! "neg:") ∧
  on_line_connect (VRef 1) "neg:" 7%N props s_rv.2 = (Raise (KeyError "neg:"), s_rv.2) ∧
  VoltageDC.input_basis_table VoltageDC.__init__ !! "neg" = None ∧
  (on_line_connect (VRef 1) "neg" 7%N props s_rv.2).1 = Ok () ∧
  connections (on_line_connect (VRef 1) "neg" 7%N props s_rv.2).2 1 "neg"
    ≫= (.!! uuid.str 7%N) = Some props.
Proof.
  cbv zeta. split; [by vm_compute|]. split; [by vm_compute; eexists|].
  split; [by vm_compute|]. split; [by vm_compute|]. split; by vm_compute.
Qed.

(** C4. What the code does: on a graph with a VoltageDC ['v1'] and a
    Resistor ['r1'], [link('e1', ('v1', 'neg'), ('r1', 'p1'))] returns
    and defines an edge whose first endpoint is pin ['neg'] of ['v1'],
    a pin that is not a key of that component's [input_basis_table];
    and the Resistor's [input_basis_table()] raises. *)
Theorem link_pin_outside_basis_table :
  let props := CircuitGraph.default_line_properties in
  let s := (CircuitGraph.link "e1" ("v1", "neg") ("r1", "p1") props s_rv).2 in
  (CircuitGraph.link "e1" ("v1", "neg") ("r1", "p1") props s_rv).1 = Ok 0%N ∧
  CircuitGraph._labels s.1 !! "e1" = Some (VRef 2) ∧
  CircuitGraph._l_edges s.1 = [VRef 2] ∧
  heap s.2 !! 2 = Some (OLineEdge
    (LineEdge.mk 0%N (VPhys props) (VStr "v1") (VStr "neg") (VStr "r1") (VStr "p1"))) ∧
  CircuitGraph._labels s.1 !! "v1" = Some (VRef 1) ∧
  (VoltageDC.input_basis_table <$>
     (heap s.2 !! 1 ≫= λ o, match o with OVoltageDC v => Some v | _ => None end))
    ≫= (.!! "neg") = None ∧
  (Resistor.input_basis_table Resistor.__init__).1 =
    Raise (TypeError "unhashable type: 'PhysicalProperties'").
Proof. cbv zeta. repeat split; by vm_compute. Qed.

(** C5. What the code does on a VoltageDC: on a constructed instance
    [on_set_attribute] raises [TypeError] for every key and value
    ([_attrib_type_map] is [None]), also when called through the graph's
    component; and on no VoltageDC, whatever its fields, does
    [on_set_attribute] return [True]. On a Resistor it returns [False]
    for every key and value. *)
Theorem on_set_attribute_raises :
  (∀ (key : string) (value : pyval),
     VoltageDC.on_set_attribute key value VoltageDC.__init__ =
       (Raise (TypeError "argument of type 'NoneType' is not iterable"),
        VoltageDC.__init__)) ∧
  on_set_attribute (VRef 1) "voltage_selector_state" (VNum (Float 5)) s_rv.2 =
    (Raise (TypeError "argument of type 'NoneType' is not iterable"), s_rv.2) ∧
  (∀ (self : VoltageDC.t) (key : string) (value : pyval),
     returns_True (VoltageDC.on_set_attribute key value self).1 = false) ∧
  (∀ (self : Resistor.t) (key : string) (value : pyval),
     Resistor.on_set_attribute key value self = (Ok (VBool false), self)).
Proof.
  split; [done|]. split; [by vm_compute|]. split; [|done].
  intros self key value. unfold VoltageDC.on_set_attribute, VoltageDC.on_state.
  monad_unfold. unfold getitem. monad_unfold.
  destruct (VoltageDC._attrib_type_map self) as [m|]; [|done].
  destruct (m !! key) as [ty|]; [|done].
  destruct (isinstance value ty); [|done]. simpl.
  destruct (VoltageDC._state self !! "attribute") as [[]|]; done.
Qed.

(** ** The tick counter *)

Lemma advance_tick_cases transfer superpose agree iteration_cap (eng : Engine) :
  match advance_tick transfer superpose agree iteration_cap eng with
  | (Committed new, eng') =>
      eng' = mkEngine (graph eng) (store eng) (S (tick_counter eng)) new
  | (ConvergenceFailure _, eng') => eng' = eng
  end.
Proof.
  unfold advance_tick.
  by destruct (reconcile transfer superpose agree iteration_cap eng (edges eng) (edge_state eng)).
Qed.

Lemma advance_ticks_S transfer superpose agree iteration_cap n (eng : Engine) :
  advance_ticks transfer superpose agree iteration_cap (S n) eng =
    let r := advance_tick transfer superpose agree iteration_cap eng in
    (r.1 :: (advance_ticks transfer superpose agree iteration_cap n r.2).1,
     (advance_ticks transfer superpose agree iteration_cap n r.2).2).
Proof.
  simpl. destruct (advance_tick transfer superpose agree iteration_cap eng) as [r eng1].
  simpl. by destruct (advance_ticks transfer superpose agree iteration_cap n eng1).
Qed.

Lemma committed_ticks_cons r rs :
  committed_ticks (r :: rs) = (if is_Committed r then 1 else 0) + committed_ticks rs.
Proof. done. Qed.

(** C9. For every graph, whatever the components' transfer functions,
    the superposition rule, the agreement test and the iteration cap:
    a successful [advance_tick] leaves the tick counter exactly one
    above what it was and commits the reported edge states; an
    [advance_tick] that reports a ConvergenceFailure leaves the whole
    engine, the tick counter and the committed edge states included, as
    it was; and over any run of [advance_tick] calls the counter has
    advanced by the number of successful calls. *)
Theorem tick_counter_counts_committed_ticks
    (transfer : pyobj → nat →
       gmap string (ApparentEMFState * PhysicalProperties) → gmap string ApparentEMFState)
    (superpose :
       list (ApparentEMFState * PhysicalProperties) → ApparentEMFState * PhysicalProperties)
    (agree : LineEdge.t → ApparentEMFState → ApparentEMFState → bool)
    (iteration_cap : nat) (eng : Engine) :
  match advance_tick transfer superpose agree iteration_cap eng with
  | (Committed new, eng') =>
      tick_counter eng' = S (tick_counter eng) ∧ tick_counter eng < tick_counter eng' ∧
      edge_state eng' = new
  | (ConvergenceFailure _, eng') =>
      tick_counter eng' = tick_counter eng ∧ edge_state eng' = edge_state eng ∧ eng' = eng
  end ∧
  ∀ n : nat,
    tick_counter (advance_ticks transfer superpose agree iteration_cap n eng).2 =
      tick_counter eng +
      committed_ticks (advance_ticks transfer superpose agree iteration_cap n eng).1.
Proof.
  split.
  - pose proof (advance_tick_cases transfer superpose agree iteration_cap eng) as H.
    destruct (advance_tick transfer superpose agree iteration_cap eng) as [[new|edge] eng'];
      subst eng'; simpl; auto with lia.
  - intros n. revert eng. induction n as [|n IH]; intros eng.
    + simpl. unfold committed_ticks. simpl. lia.
    + rewrite advance_ticks_S. cbn [fst snd]. rewrite committed_ticks_cons, IH.
      pose proof (advance_tick_cases transfer superpose agree iteration_cap eng) as H.
      destruct (advance_tick transfer superpose agree iteration_cap eng) as [[new|edge] eng1];
        subst eng1; cbn [fst snd tick_counter is_Committed]; lia.
Qed.

(** Both outcomes occur: with assertions that agree the tick commits
    and the counter goes from 0 to 1; with assertions that never agree
    the cap is exhausted, the failure is reported on the edge, and the
    counter stays at 0. *)
Example advance_tick_commits :
  let r := advance_tick (λ _ _ _, ∅) (λ _, (zero_state, CircuitGraph.default_line_properties))
             (λ _ _ _, true) 3 eng_rve in
  is_Committed r.1 = true ∧ tick_counter r.2 = 1 ∧
  edge_state r.2 !! uuid.str 0%N = Some zero_state.
Proof. cbv zeta. repeat split; by vm_compute. Qed.

Example advance_tick_fails :
  let r := advance_tick (λ _ _ _, ∅) (λ _, (zero_state, CircuitGraph.default_line_properties))
             (λ _ _ _, false) 3 eng_rve in
  r.1 = ConvergenceFailure 0%N ∧ tick_counter r.2 = 0 ∧ r.2 = eng_rve.
Proof. cbv zeta. repeat split; by vm_compute. Qed.

(** * More of the construction code *)

(** ** What define and link do to the graph and the store *)


Lemma construct_state c s :
  (construct c s).2 =
    match c with
    | Define label item => (CircuitGraph.define label item s).2
    | Link label u v props => (CircuitGraph.link label u v props s).2
    end.
Proof.
  destruct c as [label item|label u v props]; simpl; [done|].
  unfold mbind, M_bind. by destruct (CircuitGraph.link label u v props s) as [[id|ex] s'].
Qed.

Lemma keeps_classes_refl w : keeps_classes w w.
Proof. by intros v. Qed.

Lemma keeps_classes_trans w1 w2 w3 :
  keeps_classes w1 w2 → keeps_classes w2 w3 → keeps_classes w1 w3.
Proof. intros H12 H23 v. destruct (H12 v), (H23 v). split; auto. Qed.

Lemma keeps_classes_skeleton w w' : skeleton w' = skeleton w → keeps_classes w w'.
Proof.
  intros Hs v. by rewrite (skeleton_is_ComponentNode w w'), (skeleton_is_LineEdge w w').
Qed.

Lemma keeps_classes_with_edge w e : keeps_classes w (with_edge w e).
Proof.
  intros v. split.
  - by rewrite is_ComponentNode_with_edge.
  - apply is_LineEdge_with_edge.
Qed.


(** The state after [link], whatever its outcome: the store has the new
    edge and otherwise differs only in the [_state] of components, and
    the graph instance is as before or is what [define] made of it. *)
Lemma link_state label u_id u_pin v_id v_pin props g w :
  let e := link_edge w props u_id u_pin v_id v_pin in
  let s' := (CircuitGraph.link label (u_id, u_pin) (v_id, v_pin) props (g, w)).2 in
  ∃ w', skeleton w' = skeleton (with_edge w e) ∧
        uuid4_calls w' = S (uuid4_calls w) ∧
        (s' = (g, w') ∨
         s' = (CircuitGraph.define label (VRef (length (heap w))) (g, w')).2).
Proof.
  intros e s'. unfold s'. rewrite link_eq. cbv zeta. fold e.
  destruct (CircuitGraph._labels g !! u_id) as [u|]; [|by eauto 10].
  pose proof (on_line_connect_skeleton u u_pin (LineEdge.uuid e) props (with_edge w e))
    as [Hs2 Hn2].
  destruct (on_line_connect u u_pin (LineEdge.uuid e) props (with_edge w e))
    as [[[]|ex] w2]; cbn [snd] in *; [|by eauto 10].
  destruct (CircuitGraph._labels g !! v_id) as [v|]; [|by eauto 10].
  pose proof (on_line_connect_skeleton v v_pin (LineEdge.uuid e) props w2) as [Hs3 Hn3].
  destruct (on_line_connect v v_pin (LineEdge.uuid e) props w2)
    as [[[]|ex] w3]; cbn [snd] in *.
  - exists w3. split; [congruence|]. split; [by rewrite Hn3, Hn2|]. right.
    by destruct (CircuitGraph.define label (VRef (length (heap w))) (g, w3)) as [[[]|?] ?].
  - exists w3. split; [congruence|]. split; [by rewrite Hn3, Hn2|]. by left.
Qed.

(** ** The graph stays consistent with the store *)

Lemma graph_ok_new w : graph_ok (CircuitGraph.__init__, w).
Proof.
  unfold graph_ok. simpl. split; [done|]. split; [done|]. split; [|done].
  intros l v. by rewrite lookup_empty.
Qed.

Lemma graph_ok_keeps_classes g w w' :
  keeps_classes w w' → graph_ok (g, w) → graph_ok (g, w').
Proof.
  intros Hk (Hc & He & Hl & Hn). unfold graph_ok. simpl in *.
  split; [|split; [|done]].
  - eapply Forall_impl; [done|]. intros v. apply Hk.
  - eapply Forall_impl; [done|]. intros v. apply Hk.
Qed.

Lemma graph_ok_define label item s :
  graph_ok s → graph_ok (CircuitGraph.define label item s).2.
Proof.
  destruct s as [g w]. intros (Hc & He & Hl & Hn). rewrite define_eq.
  case_bool_decide as Hlabel; [done|].
  apply eq_None_not_Some in Hlabel.
  destruct (is_ComponentNode w item) eqn:Hic; [|destruct (is_LineEdge w item) eqn:Hie];
    [| |done]; unfold graph_ok; simpl in *.
  - split; [by apply Forall_app; split; [|apply Forall_singleton]|].
    split; [done|]. split.
    + intros l v. destruct (decide (label = l)) as [->|Hne].
      * rewrite lookup_insert_eq. intros [= <-]. left. set_solver.
      * rewrite lookup_insert_ne by done. intros [?|?]%Hl; set_solver.
    + rewrite map_size_insert_None by done. rewrite length_app. simpl. lia.
  - split; [done|].
    split; [by apply Forall_app; split; [|apply Forall_singleton]|]. split.
    + intros l v. destruct (decide (label = l)) as [->|Hne].
      * rewrite lookup_insert_eq. intros [= <-]. right. set_solver.
      * rewrite lookup_insert_ne by done. intros [?|?]%Hl; set_solver.
    + rewrite map_size_insert_None by done. rewrite length_app. simpl. lia.
Qed.

Lemma graph_ok_link label u v props s :
  graph_ok s → graph_ok (CircuitGraph.link label u v props s).2.
Proof.
  destruct s as [g w], u as [u_id u_pin], v as [v_id v_pin]. intros Hok.
  destruct (link_state label u_id u_pin v_id v_pin props g w) as (w' & Hs & _ & Hcase).
  assert (graph_ok (g, w')) as Hok'.
  { eapply graph_ok_keeps_classes; [|done].
    eapply keeps_classes_trans; [apply keeps_classes_with_edge|].
    by apply keeps_classes_skeleton. }
  destruct Hcase as [->| ->]; [done|]. by apply graph_ok_define.
Qed.

Lemma graph_ok_construct c s : graph_ok s → graph_ok (construct c s).2.
Proof.
  intros Hok. rewrite construct_state. destruct c as [label item|label u v props].
  - by apply graph_ok_define.
  - by apply graph_ok_link.
Qed.

(** X1. Whatever [define] and [link] calls are made on a new graph, in
    any store and whether they return or raise, the graph stays
    consistent: its component list holds only components, its edge list
    holds only line edges, every labelled item is in one of the two
    lists, and the label table has as many labels as the two lists have
    items. *)
Theorem construction_keeps_graph_consistent (calls : list construction) (w : World) :
  graph_ok (run_calls (construct <$> calls) (CircuitGraph.__init__, w)).2.
Proof.
  generalize (graph_ok_new w). generalize (CircuitGraph.__init__, w).
  induction calls as [|c calls IH]; intros s Hok; [done|].
  rewrite fmap_cons, run_calls_cons. cbn [snd].
  by apply IH, graph_ok_construct.
Qed.

(** ** The graph only grows *)

Lemma define_grows label item s :
  CircuitGraph._labels s.1 ⊆ CircuitGraph._labels (CircuitGraph.define label item s).2.1 ∧
  CircuitGraph._c_nodes s.1 `prefix_of`
    CircuitGraph._c_nodes (CircuitGraph.define label item s).2.1 ∧
  CircuitGraph._l_edges s.1 `prefix_of`
    CircuitGraph._l_edges (CircuitGraph.define label item s).2.1.
Proof.
  destruct s as [g w]. rewrite define_eq.
  case_bool_decide as Hlabel; [done|]. apply eq_None_not_Some in Hlabel.
  repeat case_match; simpl; try done.
  - split; [by apply insert_subseteq|]. split; [by apply prefix_app_r|done].
  - split; [by apply insert_subseteq|]. split; [done|by apply prefix_app_r].
Qed.

Lemma construct_grows c s :
  CircuitGraph._labels s.1 ⊆ CircuitGraph._labels (construct c s).2.1 ∧
  CircuitGraph._c_nodes s.1 `prefix_of` CircuitGraph._c_nodes (construct c s).2.1 ∧
  CircuitGraph._l_edges s.1 `prefix_of` CircuitGraph._l_edges (construct c s).2.1.
Proof.
  rewrite construct_state.
  destruct c as [label item|label [u_id u_pin] [v_id v_pin] props].
  - apply define_grows.
  - destruct s as [g w].
    destruct (link_state label u_id u_pin v_id v_pin props g w) as (w' & _ & _ & Hcase).
    destruct Hcase as [->| ->].
    + by split; [|split].
    + apply (define_grows label (VRef (length (heap w))) (g, w')).
Qed.

(** X2. No [define] or [link] call, returning or raising, ever removes
    or rebinds a label, or removes or reorders a component or an edge:
    after any run of such calls the label table contains the one before
    with the same items, and the component list and the edge list have
    the ones before as prefixes. *)
Theorem construction_only_grows (calls : list construction) (s : CircuitGraph.state) :
  CircuitGraph._labels s.1 ⊆
    CircuitGraph._labels (run_calls (construct <$> calls) s).2.1 ∧
  CircuitGraph._c_nodes s.1 `prefix_of`
    CircuitGraph._c_nodes (run_calls (construct <$> calls) s).2.1 ∧
  CircuitGraph._l_edges s.1 `prefix_of`
    CircuitGraph._l_edges (run_calls (construct <$> calls) s).2.1.
Proof.
  revert s. induction calls as [|c calls IH]; intros s; [done|].
  rewrite fmap_cons, run_calls_cons. cbn [snd].
  destruct (construct_grows c s) as (Hl & Hc & He).
  destruct (IH (construct c s).2) as (Hl' & Hc' & He').
  split; [by etrans|]. split; by etrans.
Qed.


(** ** Connecting and disconnecting, in full *)

Lemma connections_update w a o st p pin entry d a' pin' :
  heap w !! a = Some o → component_state o = Some st →
  state_pins st = Some p → p !! pin = Some entry →
  connections
    (store_at w a (with_state o (<["pins" := SPins (<[pin := (entry.1, d)]> p)]> st)))
    a' pin' =
    if bool_decide (a' = a ∧ pin' = pin) then Some d else connections w a' pin'.
Proof.
  intros Ha Hst Hp He. unfold connections at 1. simpl.
  destruct (decide (a' = a)) as [->|Hne].
  - rewrite list_lookup_insert_eq by (by eapply lookup_lt_Some). simpl.
    unfold component_pins. rewrite (component_state_with_state o st) by done. simpl.
    rewrite state_pins_insert. simpl.
    destruct (decide (pin' = pin)) as [->|Hpin].
    + rewrite bool_decide_eq_true_2 by done. by rewrite lookup_insert_eq.
    + rewrite bool_decide_eq_false_2 by (by intros [_ ?]).
      rewrite lookup_insert_ne by done.
      unfold connections, component_pins. rewrite Ha. simpl. rewrite Hst. simpl.
      by rewrite Hp.
  - rewrite bool_decide_eq_false_2 by (by intros [? _]).
    by rewrite list_lookup_insert_ne.
Qed.

Lemma on_line_connect_known_eq w a o st p pin entry id props :
  heap w !! a = Some o → component_state o = Some st →
  state_pins st = Some p → p !! pin = Some entry →
  on_line_connect (VRef a) pin id props w =
    (Ok (), store_at w a (with_state o
       (<["pins" := SPins (<[pin := (entry.1, <[uuid.str id := props]> entry.2)]> p)]> st))).
Proof.
  intros Ha Hst Hp He. rewrite (on_line_connect_eq w a o st) by done.
  by rewrite (pins_connect_known pin id props st p entry).
Qed.

Lemma on_line_disconnect_known_eq w a o st p pin entry id props :
  heap w !! a = Some o → component_state o = Some st →
  state_pins st = Some p → p !! pin = Some entry →
  entry.2 !! uuid.str id = Some props →
  on_line_disconnect (VRef a) pin id w =
    (Ok (), store_at w a (with_state o
       (<["pins" := SPins (<[pin := (entry.1, delete (uuid.str id) entry.2)]> p)]> st))).
Proof.
  intros Ha Hst Hp He Hk. rewrite (on_line_disconnect_eq w a o st) by done.
  by rewrite (pins_disconnect_known pin id st p entry props).
Qed.

Lemma on_line_disconnect_unregistered_eq w a o st p pin entry id :
  heap w !! a = Some o → component_state o = Some st →
  state_pins st = Some p → p !! pin = Some entry →
  entry.2 !! uuid.str id = None →
  on_line_disconnect (VRef a) pin id w = (Raise (KeyError (uuid.str id)), w).
Proof.
  intros Ha Hst Hp%state_pins_Some He Hk.
  rewrite (on_line_disconnect_eq w a o st) by done.
  assert (pins_disconnect pin id st = (Raise (KeyError (uuid.str id)), st)) as ->.
  { unfold pins_disconnect. monad_unfold. unfold getitem. rewrite Hp. monad_unfold.
    rewrite He. by rewrite Hk. }
  cbn [fst snd]. by rewrite with_state_id, store_at_id.
Qed.

Lemma on_line_disconnect_unknown w a pin id :
  has_pin w a pin = false →
  ∃ e, on_line_disconnect (VRef a) pin id w = (Raise e, w).
Proof.
  intros Hpin. destruct (is_ComponentNode w (VRef a)) eqn:Hc; last first.
  { by apply on_line_disconnect_not_component. }
  simpl in Hc. destruct (heap w !! a) as [o|] eqn:Ha; [|done].
  assert (∃ st, component_state o = Some st) as [st Hst].
  { destruct o; simpl in *; eauto. done. }
  assert (state_pins st ≫= (.!! pin) = None) as Hnone.
  { apply bool_decide_eq_false in Hpin. apply eq_None_not_Some. intros [entry He].
    apply Hpin. exists entry.2. unfold connections, component_pins.
    rewrite Ha. simpl. rewrite Hst. simpl.
    destruct (state_pins st) as [p|]; simpl in *; [|done]. by rewrite He. }
  destruct (pins_disconnect_unknown pin id st Hnone) as (e & He).
  exists e. rewrite (on_line_disconnect_eq w a o st) by done. rewrite He. simpl.
  by rewrite with_state_id, store_at_id.
Qed.

(** X4. Disconnecting an edge that is not registered on a known pin
    raises [KeyError] on the edge's id string (the [pop] of a missing
    key) and leaves the store as it was. *)
Theorem disconnect_unregistered_raises (w : World) (a : addr) (pin : string) (id : UUID) :
  has_pin w a pin = true →
  registered w a pin id = None →
  on_line_disconnect (VRef a) pin id w = (Raise (KeyError (uuid.str id)), w).
Proof.
  intros [d (o & st & p & entry & Ha & Hst & Hp & He & ->)%connections_Some]%has_pin_true Hk.
  unfold registered in Hk.
  assert (connections w a pin = Some entry.2) as Hc.
  { apply connections_Some. by exists o, st, p, entry. }
  rewrite Hc in Hk. simpl in Hk. by eapply on_line_disconnect_unregistered_eq.
Qed.

Lemma disconnect_unregistered_raises_witness :
  has_pin s_rve.2 0 "p2" = true ∧
  registered s_rve.2 0 "p2" 0%N = None ∧
  on_line_disconnect (VRef 0) "p2" 0%N s_rve.2 =
    (Raise (KeyError "00000000-0000-0000-0000-000000000000"), s_rve.2).
Proof.
  assert (has_pin s_rve.2 0 "p2" = true) as H1 by (vm_compute; reflexivity).
  assert (registered s_rve.2 0 "p2" 0%N = None) as H2 by (vm_compute; reflexivity).
  split; [exact H1|]. split; [exact H2|].
  exact (disconnect_unregistered_raises s_rve.2 0 "p2" 0%N H1 H2).
Defined.

(** X5. On a known pin, connecting an edge that is not yet registered
    there and then disconnecting it both return and restore the store
    exactly: the component is as if the edge had never been connected. *)
Theorem connect_disconnect_restores
    (w : World) (a : addr) (pin : string) (id : UUID) (props : PhysicalProperties) :
  has_pin w a pin = true →
  registered w a pin id = None →
  run_calls [on_line_connect (VRef a) pin id props;
             on_line_disconnect (VRef a) pin id] w
    = ([Ok (); Ok ()], w).
Proof.
  intros [d (o & st & p & entry & Ha & Hst & Hp & He & ->)%connections_Some]%has_pin_true Hk.
  unfold registered in Hk.
  assert (connections w a pin = Some entry.2) as Hc.
  { apply connections_Some. by exists o, st, p, entry. }
  rewrite Hc in Hk. simpl in Hk.
  pose proof (lookup_lt_Some _ _ _ Ha) as Hlt.
  rewrite !run_calls_cons.
  rewrite (on_line_connect_known_eq w a o st p pin entry) by done. cbn [fst snd].
  erewrite on_line_disconnect_known_eq;
    [|by apply store_at_lookup|by eapply component_state_with_state
     |apply state_pins_insert|apply lookup_insert_eq|apply lookup_insert_eq].
  cbn [fst snd run_calls]. rewrite with_state_with_state, store_at_store_at.
  rewrite !insert_insert_eq, delete_insert_id by done.
  rewrite <- surjective_pairing, (insert_id p) by done.
  rewrite insert_id by (by apply state_pins_Some).
  by rewrite with_state_id, store_at_id.
Qed.

Lemma connect_disconnect_restores_witness :
  has_pin s_rve.2 1 "neg" = true ∧
  registered s_rve.2 1 "neg" 5%N = None ∧
  run_calls [on_line_connect (VRef 1) "neg" 5%N CircuitGraph.default_line_properties;
             on_line_disconnect (VRef 1) "neg" 5%N] s_rve.2
    = ([Ok (); Ok ()], s_rve.2).
Proof.
  assert (has_pin s_rve.2 1 "neg" = true) as H1 by (vm_compute; reflexivity).
  assert (registered s_rve.2 1 "neg" 5%N = None) as H2 by (vm_compute; reflexivity).
  split; [exact H1|]. split; [exact H2|].
  exact (connect_disconnect_restores s_rve.2 1 "neg" 5%N
           CircuitGraph.default_line_properties H1 H2).
Defined.

(** X6. Connecting the same edge id twice on a known pin keeps one
    registration, with the properties of the last call: the store is
    the one a single call with the last properties gives. *)
Theorem connect_twice_keeps_last
    (w : World) (a : addr) (pin : string) (id : UUID) (props1 props2 : PhysicalProperties) :
  has_pin w a pin = true →
  run_calls [on_line_connect (VRef a) pin id props1;
             on_line_connect (VRef a) pin id props2] w
    = ([Ok (); Ok ()], (on_line_connect (VRef a) pin id props2 w).2) ∧
  registered (on_line_connect (VRef a) pin id props2 w).2 a pin id = Some props2.
Proof.
  intros [d (o & st & p & entry & Ha & Hst & Hp & He & ->)%connections_Some]%has_pin_true.
  pose proof (lookup_lt_Some _ _ _ Ha) as Hlt.
  rewrite !run_calls_cons.
  rewrite !(on_line_connect_known_eq w a o st p pin entry) by done. cbn [fst snd].
  split.
  - erewrite on_line_connect_known_eq;
      [|by apply store_at_lookup|by eapply component_state_with_state
       |apply state_pins_insert|apply lookup_insert_eq].
    cbn [fst snd run_calls]. rewrite with_state_with_state, store_at_store_at.
    by rewrite !insert_insert_eq.
  - unfold registered. rewrite (connections_update w a o st p pin entry) by done.
    rewrite bool_decide_eq_true_2 by done. simpl. by rewrite lookup_insert_eq.
Qed.

Lemma connect_twice_keeps_last_witness :
  has_pin s_rv.2 0 "p1" = true ∧
  registered
    (run_calls [on_line_connect (VRef 0) "p1" 3%N CircuitGraph.default_line_properties;
                on_line_connect (VRef 0) "p1" 3%N (Resistor._basis Resistor.__init__)]
       s_rv.2).2 0 "p1" 3%N
    = Some (Resistor._basis Resistor.__init__).
Proof.
  assert (has_pin s_rv.2 0 "p1" = true) as H1 by (vm_compute; reflexivity).
  split; [exact H1|].
  destruct (connect_twice_keeps_last s_rv.2 0 "p1" 3%N
              CircuitGraph.default_line_properties (Resistor._basis Resistor.__init__) H1)
    as [-> Hreg].
  exact Hreg.
Defined.

(** X7. The pins of a component are fixed when it is constructed: no
    [on_line_connect] or [on_line_disconnect] call, on any target, pin
    and id and whatever its outcome, adds a pin to a component or
    removes one. *)
Theorem pins_are_fixed
    (w : World) (target : pyval) (pin : string) (id : UUID) (props : PhysicalProperties)
    (a' : addr) (pin' : string) :
  has_pin (on_line_connect target pin id props w).2 a' pin' = has_pin w a' pin' ∧
  has_pin (on_line_disconnect target pin id w).2 a' pin' = has_pin w a' pin'.
Proof.
  split.
  - destruct (is_ComponentNode w target) eqn:Hc; last first.
    { by destruct (on_line_connect_not_component w target pin id props Hc) as (e & -> & _). }
    destruct target as [| | | | |a|]; try done.
    destruct (has_pin w a pin) eqn:Hpin; [by apply has_pin_connect|].
    by destruct (on_line_connect_unknown w a pin id props Hpin) as (e & -> & _).
  - destruct (is_ComponentNode w target) eqn:Hc; last first.
    { by destruct (on_line_disconnect_not_component w target pin id Hc) as (e & ->). }
    destruct target as [| | | | |a|]; try done.
    destruct (has_pin w a pin) eqn:Hpin; last first.
    { by destruct (on_line_disconnect_unknown w a pin id Hpin) as (e & ->). }
    apply has_pin_true in Hpin
      as [d (o & st & p & entry & Ha & Hst & Hp & He & ->)%connections_Some].
    destruct (entry.2 !! uuid.str id) as [props0|] eqn:Hk; last first.
    { by rewrite (on_line_disconnect_unregistered_eq w a o st p pin entry). }
    rewrite (on_line_disconnect_known_eq w a o st p pin entry id props0) by done.
    cbn [snd]. unfold has_pin.
    rewrite (connections_update w a o st p pin entry) by done.
    destruct (decide (a' = a ∧ pin' = pin)) as [[-> ->]|Hne]; last first.
    { by rewrite (bool_decide_eq_false_2 (a' = a ∧ pin' = pin)). }
    rewrite (bool_decide_eq_true_2 (a = a ∧ pin = pin)) by done.
    apply bool_decide_ext.
    assert (connections w a pin = Some entry.2) as ->.
    { apply connections_Some. by exists o, st, p, entry. }
    split; eauto.
Qed.

(** A registration stays through another [on_line_connect] of the same
    id and properties, on any target and pin, whatever its outcome. *)
Lemma registered_after_connect w a pin id props target pin' :
  registered w a pin id = Some props →
  registered (on_line_connect target pin' id props w).2 a pin id = Some props.
Proof.
  intros Hreg. destruct (is_ComponentNode w target) eqn:Hc; last first.
  { by destruct (on_line_connect_not_component w target pin' id props Hc) as (e & -> & _). }
  destruct target as [| | | | |a2|]; try done.
  destruct (has_pin w a2 pin') eqn:Hpin; last first.
  { by destruct (on_line_connect_unknown w a2 pin' id props Hpin) as (e & -> & _). }
  destruct (on_line_connect_known w a2 pin' id props Hpin) as [_ Hconn].
  unfold registered in *. rewrite Hconn.
  destruct (bool_decide (a = a2 ∧ pin = pin')); [|done].
  destruct (connections w a pin) as [d|]; [|done]. simpl. by rewrite lookup_insert_eq.
Qed.

Lemma graph_ok_s_rv : graph_ok (s_rv.1, s_rv.2).
Proof.
  assert ((s_rv.1, s_rv.2) =
          (construct (Define "v1" (VRef 1))
             (construct (Define "r1" (VRef 0)) (CircuitGraph.__init__, s_rv.2)).2).2)
    as -> by (vm_compute; reflexivity).
  apply graph_ok_construct, graph_ok_construct, graph_ok_new.
Qed.

(** X8. [link] is not undone when it fails: if its first endpoint names
    a component that has the pin, then after a [link] that raises
    (unknown second label or pin, or a label already in use) the graph
    instance is as before, so the new edge is in no list and under no
    label, yet the first component still holds the registration of the
    new edge's id with the given properties. *)
Theorem failed_link_leaves_registration
    (g : CircuitGraph.t) (w : World) (label u_id u_pin v_id v_pin : string)
    (props : PhysicalProperties) (au : addr) (ex : exn) (s' : CircuitGraph.state) :
  graph_ok (g, w) →
  CircuitGraph._labels g !! u_id = Some (VRef au) →
  has_pin w au u_pin = true →
  CircuitGraph.link label (u_id, u_pin) (v_id, v_pin) props (g, w) = (Raise ex, s') →
  s'.1 = g ∧
  (VRef (length (heap w)) ∉ CircuitGraph._l_edges s'.1) ∧
  registered s'.2 au u_pin (N.of_nat (uuid4_calls w)) = Some props.
Proof.
  intros (_ & Hedges & _ & _) Hu Hpu. rewrite link_eq. cbv zeta. rewrite Hu.
  set (e := link_edge w props u_id u_pin v_id v_pin).
  change (LineEdge.uuid e) with (N.of_nat (uuid4_calls w)).
  set (id := N.of_nat (uuid4_calls w)).
  assert (VRef (length (heap w)) ∉ CircuitGraph._l_edges g) as Hnotin.
  { intros Hin. rewrite Forall_forall in Hedges. specialize (Hedges _ Hin).
    simpl in Hedges. by rewrite lookup_ge_None_2 in Hedges. }
  pose proof (has_pin_with_edge w e au u_pin Hpu) as Hpu1.
  destruct (on_line_connect_known _ _ _ id props Hpu1) as [Hok2 Hc2].
  assert (registered (on_line_connect (VRef au) u_pin id props (with_edge w e)).2
            au u_pin id = Some props) as Hreg2.
  { unfold registered. rewrite Hc2, bool_decide_eq_true_2 by done.
    apply has_pin_true in Hpu1 as [d ->]. simpl. by rewrite lookup_insert_eq. }
  destruct (on_line_connect (VRef au) u_pin id props (with_edge w e)) as [r2 w2].
  cbn [fst snd] in *. subst r2.
  destruct (CircuitGraph._labels g !! v_id) as [v|]; [|by intros [= <- <-]; auto].
  pose proof (registered_after_connect w2 au u_pin id props v v_pin Hreg2) as Hreg3.
  destruct (on_line_connect v v_pin id props w2) as [[[]|ex3] w3]; cbn [snd] in Hreg3;
    [|by intros [= <- <-]; auto].
  rewrite define_eq.
  destruct (bool_decide (is_Some (CircuitGraph._labels g !! label)));
    [by intros [= <- <-]; auto|].
  destruct (is_ComponentNode w3 (VRef (length (heap w)))); [done|].
  destruct (is_LineEdge w3 (VRef (length (heap w)))); [done|].
  by intros [= <- <-]; auto.
Qed.

Lemma failed_link_leaves_registration_witness :
  CircuitGraph._labels s_rv.1 !! "r1" = Some (VRef 0) ∧
  has_pin s_rv.2 0 "p1" = true ∧
  (CircuitGraph.link "v1" ("r1", "p1") ("v1", "pos")
     CircuitGraph.default_line_properties s_rv).1 = Raise duplicate_label ∧
  registered
    (CircuitGraph.link "v1" ("r1", "p1") ("v1", "pos")
       CircuitGraph.default_line_properties s_rv).2.2 0 "p1" 0%N
    = Some CircuitGraph.default_line_properties.
Proof.
  assert (CircuitGraph._labels s_rv.1 !! "r1" = Some (VRef 0)) as H1
    by (vm_compute; reflexivity).
  assert (has_pin s_rv.2 0 "p1" = true) as H2 by (vm_compute; reflexivity).
  assert (∃ s', CircuitGraph.link "v1" ("r1", "p1") ("v1", "pos")
            CircuitGraph.default_line_properties (s_rv.1, s_rv.2)
          = (Raise duplicate_label, s')) as [s' H3].
  { eexists. vm_compute. reflexivity. }
  pose proof graph_ok_s_rv as Hok.
  destruct (failed_link_leaves_registration s_rv.1 s_rv.2 "v1" "r1" "p1" "v1" "pos"
              CircuitGraph.default_line_properties 0 duplicate_label s' Hok H1 H2 H3)
    as (_ & _ & Hreg).
  split; [exact H1|]. split; [exact H2|].
  change (CircuitGraph.link "v1" ("r1", "p1") ("v1", "pos")
            CircuitGraph.default_line_properties s_rv)
    with (CircuitGraph.link "v1" ("r1", "p1") ("v1", "pos")
            CircuitGraph.default_line_properties (s_rv.1, s_rv.2)).
  rewrite H3. split; [reflexivity|exact Hreg].
Defined.

(** ** When link returns *)

Lemma label_has_pin_true g w label pin :
  label_has_pin g w label pin = true ↔
  ∃ a, CircuitGraph._labels g !! label = Some (VRef a) ∧ has_pin w a pin = true.
Proof.
  unfold label_has_pin. split.
  - destruct (CircuitGraph._labels g !! label) as [[| | | | |a|]|]; try done. eauto.
  - by intros (a & -> & ->).
Qed.

Lemma link_Ok_label_fresh label u_id u_pin v_id v_pin props g w id s' :
  CircuitGraph.link label (u_id, u_pin) (v_id, v_pin) props (g, w) = (Ok id, s') →
  CircuitGraph._labels g !! label = None.
Proof.
  rewrite link_eq. cbv zeta.
  destruct (CircuitGraph._labels g !! u_id) as [u|]; [|done].
  destruct (on_line_connect u u_pin _ props _) as [[[]|?] w2]; [|done].
  destruct (CircuitGraph._labels g !! v_id) as [v|]; [|done].
  destruct (on_line_connect v v_pin _ props _) as [[[]|?] w3]; [|done].
  rewrite define_eq. case_bool_decide as Hl; [done|]. intros _.
  by apply eq_None_not_Some.
Qed.

(** X9. [link] returns exactly when its label is not yet in the label
    table and each endpoint label names a component of the graph that
    has the endpoint's pin in its pin table; in every other case it
    raises. *)
Theorem link_returns_iff
    (label u_id u_pin v_id v_pin : string) (props : PhysicalProperties)
    (g : CircuitGraph.t) (w : World) :
  is_Ok (CircuitGraph.link label (u_id, u_pin) (v_id, v_pin) props (g, w)).1 = true ↔
  CircuitGraph._labels g !! label = None ∧
  label_has_pin g w u_id u_pin = true ∧
  label_has_pin g w v_id v_pin = true.
Proof.
  split.
  - destruct (CircuitGraph.link label (u_id, u_pin) (v_id, v_pin) props (g, w))
      as [[id|ex] s'] eqn:Hlink; [|done]. intros _. split.
    + by eapply link_Ok_label_fresh.
    + by eapply link_Ok_known_pins.
  - intros (Hlabel & (au & Hu & Hpu)%label_has_pin_true & (av & Hv & Hpv)%label_has_pin_true).
    rewrite link_eq. cbv zeta. rewrite Hu, Hv.
    set (e := link_edge w props u_id u_pin v_id v_pin).
    pose proof (has_pin_with_edge w e au u_pin Hpu) as Hpu1.
    pose proof (has_pin_with_edge w e av v_pin Hpv) as Hpv1.
    pose proof (on_line_connect_known _ _ _ (LineEdge.uuid e) props Hpu1) as [Hok2 _].
    pose proof (on_line_connect_skeleton (VRef au) u_pin (LineEdge.uuid e) props
                  (with_edge w e)) as [Hs2 _].
    pose proof (has_pin_connect _ _ _ (LineEdge.uuid e) props av v_pin Hpu1) as Hpv2.
    destruct (on_line_connect (VRef au) u_pin (LineEdge.uuid e) props (with_edge w e))
      as [r2 w2]. cbn [fst snd] in *. subst r2. rewrite Hpv1 in Hpv2.
    pose proof (on_line_connect_known _ _ _ (LineEdge.uuid e) props Hpv2) as [Hok3 _].
    pose proof (on_line_connect_skeleton (VRef av) v_pin (LineEdge.uuid e) props w2)
      as [Hs3 _].
    destruct (on_line_connect (VRef av) v_pin (LineEdge.uuid e) props w2) as [r3 w3].
    cbn [fst snd] in *. subst r3.
    assert (heap w3 !! length (heap w) = Some (OLineEdge e)) as He3.
    { apply (skeleton_LineEdge w2 w3); [done|].
      apply (skeleton_LineEdge (with_edge w e) w2); [done|]. apply with_edge_lookup. }
    rewrite define_eq. rewrite bool_decide_eq_false_2; last first.
    { rewrite Hlabel. by intros [? ?]. }
    simpl. by rewrite He3.
Qed.

(** ** Connections on different pins or of different edges *)

Lemma connect_again w a o st p pin (entry : pin_entry) d pin' (entry' : pin_entry)
    id props :
  heap w !! a = Some o → component_state o = Some st →
  (<[pin := (entry.1, d)]> p) !! pin' = Some entry' →
  on_line_connect (VRef a) pin' id props
    (store_at w a (with_state o (<["pins" := SPins (<[pin := (entry.1, d)]> p)]> st))) =
    (Ok (), store_at w a (with_state o
       (<["pins" := SPins (<[pin' := (entry'.1, <[uuid.str id := props]> entry'.2)]>
                            (<[pin := (entry.1, d)]> p))]> st))).
Proof.
  intros Ha Hst He'. pose proof (lookup_lt_Some _ _ _ Ha) as Hlt.
  erewrite on_line_connect_known_eq;
    [|by apply store_at_lookup|by eapply component_state_with_state
     |apply state_pins_insert|done].
  by rewrite with_state_with_state, store_at_store_at, insert_insert_eq.
Qed.

(** X10. Registrations do not depend on the order of the calls: two
    [on_line_connect] calls on known pins that differ in the component,
    the pin or the edge id give the same store in either order (as
    [link] connects its two endpoints, and as a circuit is wired). *)
Theorem connects_commute
    (w : World) (a1 a2 : addr) (pin1 pin2 : string) (id1 id2 : UUID)
    (props1 props2 : PhysicalProperties) :
  has_pin w a1 pin1 = true →
  has_pin w a2 pin2 = true →
  (a1, pin1, uuid.str id1) ≠ (a2, pin2, uuid.str id2) →
  run_calls [on_line_connect (VRef a1) pin1 id1 props1;
             on_line_connect (VRef a2) pin2 id2 props2] w
  = ([Ok (); Ok ()],
     (run_calls [on_line_connect (VRef a2) pin2 id2 props2;
                 on_line_connect (VRef a1) pin1 id1 props1] w).2).
Proof.
  intros [d1 (o1 & st1 & p1 & e1 & Ha1 & Hst1 & Hp1 & He1 & ->)%connections_Some]%has_pin_true.
  intros [d2 (o2 & st2 & p2 & e2 & Ha2 & Hst2 & Hp2 & He2 & ->)%connections_Some]%has_pin_true.
  intros Hne. rewrite !run_calls_cons.
  rewrite (on_line_connect_known_eq w a1 o1 st1 p1 pin1 e1) by done.
  rewrite (on_line_connect_known_eq w a2 o2 st2 p2 pin2 e2) by done.
  cbn [fst snd run_calls].
  destruct (decide (a1 = a2)) as [->|Ha].
  - assert (o2 = o1) as -> by congruence. assert (st2 = st1) as -> by congruence.
    assert (p2 = p1) as -> by congruence.
    destruct (decide (pin1 = pin2)) as [->|Hpin].
    + assert (e2 = e1) as -> by congruence.
      assert (uuid.str id1 ≠ uuid.str id2) as Hk by congruence.
      rewrite (connect_again w a2 o1 st1 p1 pin2 e1 _ pin2
                 (e1.1, <[uuid.str id1 := props1]> e1.2))
        by (done || apply lookup_insert_eq).
      rewrite (connect_again w a2 o1 st1 p1 pin2 e1 _ pin2
                 (e1.1, <[uuid.str id2 := props2]> e1.2))
        by (done || apply lookup_insert_eq).
      cbn [fst snd]. rewrite !insert_insert_eq.
      by rewrite (insert_insert_ne _ (uuid.str id2) (uuid.str id1)).
    + rewrite (connect_again w a2 o1 st1 p1 pin1 e1 _ pin2 e2)
        by (done || by rewrite lookup_insert_ne).
      rewrite (connect_again w a2 o1 st1 p1 pin2 e2 _ pin1 e1)
        by (done || by rewrite lookup_insert_ne).
      cbn [fst snd]. by rewrite (insert_insert_ne _ pin2 pin1).
  - erewrite (on_line_connect_known_eq _ a2 o2 st2 p2 pin2 e2);
      [|by simpl; rewrite list_lookup_insert_ne|done..].
    erewrite (on_line_connect_known_eq _ a1 o1 st1 p1 pin1 e1);
      [|by simpl; rewrite list_lookup_insert_ne|done..].
    cbn [fst snd]. unfold store_at. simpl.
    by rewrite (list_insert_insert_ne _ a2 a1).
Qed.

Lemma connects_commute_witness :
  has_pin s_rv.2 0 "p1" = true ∧
  has_pin s_rv.2 1 "pos" = true ∧
  (run_calls [on_line_connect (VRef 0) "p1" 4%N CircuitGraph.default_line_properties;
              on_line_connect (VRef 1) "pos" 4%N CircuitGraph.default_line_properties]
     s_rv.2).2
  = (run_calls [on_line_connect (VRef 1) "pos" 4%N CircuitGraph.default_line_properties;
                on_line_connect (VRef 0) "p1" 4%N CircuitGraph.default_line_properties]
       s_rv.2).2.
Proof.
  assert (has_pin s_rv.2 0 "p1" = true) as H1 by (vm_compute; reflexivity).
  assert (has_pin s_rv.2 1 "pos" = true) as H2 by (vm_compute; reflexivity).
  split; [exact H1|]. split; [exact H2|].
  rewrite (connects_commute s_rv.2 0 1 "p1" "pos" 4%N 4%N
             CircuitGraph.default_line_properties CircuitGraph.default_line_properties
             H1 H2); [reflexivity|]. intros [=].
Defined.

(** ** Initialisation *)

Lemma on_initialisation_eq w a o st t :
  heap w !! a = Some o → component_state o = Some st →
  on_initialisation (VRef a) t w =
    (Ok (), store_at w a (with_state o (<["temp_c" := SNum t]> st))).
Proof.
  intros Ha Hst. unfold on_initialisation, on_object. monad_unfold. rewrite Ha.
  by destruct o as [r|v|e]; simpl in *; [| |done]; injection Hst as <-.
Qed.

(** X11. [on_initialisation] on a component always returns, at any
    time: it sets the ambient temperature, leaves every registration on
    every pin of every component as it was, and a later call replaces
    the temperature of an earlier one (two calls leave the store that
    the last one alone gives). *)
Theorem on_initialisation_rebaselines (w : World) (a : addr) (t1 t2 : number) :
  is_ComponentNode w (VRef a) = true →
  on_initialisation (VRef a) t1 w = (Ok (), (on_initialisation (VRef a) t1 w).2) ∧
  temp_c (on_initialisation (VRef a) t1 w).2 a = Some (SNum t1) ∧
  (∀ a' pin', connections (on_initialisation (VRef a) t1 w).2 a' pin'
              = connections w a' pin') ∧
  run_calls [on_initialisation (VRef a) t1; on_initialisation (VRef a) t2] w
    = ([Ok (); Ok ()], (on_initialisation (VRef a) t2 w).2).
Proof.
  intros Hc. simpl in Hc. destruct (heap w !! a) as [o|] eqn:Ha; [|done].
  assert (∃ st, component_state o = Some st) as [st Hst].
  { destruct o; simpl in *; eauto. done. }
  pose proof (lookup_lt_Some _ _ _ Ha) as Hlt.
  rewrite !run_calls_cons, !(on_initialisation_eq w a o st) by done. cbn [fst snd].
  split; [done|]. split; [|split].
  - unfold temp_c. rewrite store_at_lookup by done. simpl.
    rewrite (component_state_with_state o st) by done. simpl.
    by rewrite lookup_insert_eq.
  - intros a' pin'. unfold connections. simpl.
    destruct (decide (a' = a)) as [->|Hne].
    + rewrite list_lookup_insert_eq by done. rewrite Ha. simpl.
      unfold component_pins. rewrite (component_state_with_state o st), Hst by done.
      simpl. unfold state_pins. by rewrite lookup_insert_ne.
    + by rewrite list_lookup_insert_ne.
  - erewrite on_initialisation_eq;
      [|by apply store_at_lookup|by eapply component_state_with_state].
    cbn [fst snd run_calls].
    by rewrite with_state_with_state, store_at_store_at, insert_insert_eq.
Qed.

Lemma on_initialisation_rebaselines_witness :
  is_ComponentNode s_rve.2 (VRef 1) = true ∧
  temp_c (on_initialisation (VRef 1) (Float 40) s_rve.2).2 1 = Some (SNum (Float 40)) ∧
  registered (on_initialisation (VRef 1) (Float 40) s_rve.2).2 1 "pos" 0%N
    = Some CircuitGraph.default_line_properties.
Proof.
  assert (is_ComponentNode s_rve.2 (VRef 1) = true) as H1 by (vm_compute; reflexivity).
  destruct (on_initialisation_rebaselines s_rve.2 1 (Float 40) (Float 20) H1)
    as (_ & Ht & Hconn & _).
  split; [exact H1|]. split; [exact Ht|].
  unfold registered. rewrite Hconn. vm_compute. reflexivity.
Defined.

(** ** One registration at a time *)

(** X12. [on_line_connect] on a known pin of a component returns and
    registers the edge's properties under the edge's id on that pin,
    changing no other registration on any pin of any component; on any
    other target or pin it raises and the store is as before. *)
Theorem connect_registers_one_edge
    (w : World) (a : addr) (pin : string) (id : UUID) (props : PhysicalProperties) :
  if has_pin w a pin then
    (on_line_connect (VRef a) pin id props w).1 = Ok () ∧
    registered (on_line_connect (VRef a) pin id props w).2 a pin id = Some props ∧
    ∀ a' pin' id', (a', pin', uuid.str id') ≠ (a, pin, uuid.str id) →
      registered (on_line_connect (VRef a) pin id props w).2 a' pin' id'
      = registered w a' pin' id'
  else
    ∃ e, on_line_connect (VRef a) pin id props w = (Raise e, w).
Proof.
  destruct (has_pin w a pin) eqn:Hpin; last first.
  { destruct (on_line_connect_unknown w a pin id props Hpin) as (e & He & _). eauto. }
  destruct (on_line_connect_known w a pin id props Hpin) as [Hok Hconn].
  apply has_pin_true in Hpin as [d Hd].
  split; [done|]. unfold registered. split.
  - rewrite Hconn, bool_decide_eq_true_2, Hd by done. simpl. by rewrite lookup_insert_eq.
  - intros a' pin' id' Hne. rewrite Hconn. case_bool_decide as Heq; [|done].
    destruct Heq as [-> ->]. rewrite Hd. simpl.
    rewrite lookup_insert_ne; [done|]. congruence.
Qed.

(** X13. [on_line_disconnect] of an edge registered on a pin returns
    and removes that registration alone, every other registration on
    every pin of every component staying as it was; when the edge is
    not registered there (unknown target, unknown pin or unknown id) it
    raises and the store is as before. *)
Theorem disconnect_removes_one_edge
    (w : World) (a : addr) (pin : string) (id : UUID) :
  match registered w a pin id with
  | Some _ =>
      (on_line_disconnect (VRef a) pin id w).1 = Ok () ∧
      registered (on_line_disconnect (VRef a) pin id w).2 a pin id = None ∧
      ∀ a' pin' id', (a', pin', uuid.str id') ≠ (a, pin, uuid.str id) →
        registered (on_line_disconnect (VRef a) pin id w).2 a' pin' id'
        = registered w a' pin' id'
  | None => ∃ e, on_line_disconnect (VRef a) pin id w = (Raise e, w)
  end.
Proof.
  destruct (has_pin w a pin) eqn:Hpin; last first.
  { assert (registered w a pin id = None) as ->.
    { unfold registered. apply bool_decide_eq_false in Hpin.
      destruct (connections w a pin) as [d|]; [|done]. destruct Hpin. eauto. }
    by apply on_line_disconnect_unknown. }
  apply has_pin_true in Hpin
    as [d (o & st & p & entry & Ha & Hst & Hp & He & ->)%connections_Some].
  assert (connections w a pin = Some entry.2) as Hc.
  { apply connections_Some. by exists o, st, p, entry. }
  assert (registered w a pin id = entry.2 !! uuid.str id) as Hreg.
  { unfold registered. by rewrite Hc. }
  rewrite Hreg.
  destruct (entry.2 !! uuid.str id) as [props0|] eqn:Hk; last first.
  { exists (KeyError (uuid.str id)). by eapply on_line_disconnect_unregistered_eq. }
  rewrite (on_line_disconnect_known_eq w a o st p pin entry id props0) by done.
  cbn [fst snd]. split; [done|]. unfold registered. split.
  - rewrite (connections_update w a o st p pin entry) by done.
    rewrite bool_decide_eq_true_2 by done. simpl. by rewrite lookup_delete_eq.
  - intros a' pin' id' Hne.
    rewrite (connections_update w a o st p pin entry) by done.
    case_bool_decide as Heq; [|done]. destruct Heq as [-> ->]. rewrite Hc. simpl.
    rewrite lookup_delete_ne; [done|]. congruence.
Qed.
